(** * Stabilization data pipeline of libopenshot

    A shallow embedding of [src/CVStabilization.cpp] (the analysis pass:
    tracking, trajectory accumulation, smoothing, transform synthesis,
    save/load) and of [src/effects/Stabilizer.cpp] (the rendering effect),
    followed by the properties of the specification that were checked
    against them.

    Conventions.
    - [double] is IEEE binary64, Rocq's primitive [float]; every [+], [-],
      [/] below is the primitive operation, so sums are taken in the order
      in which the loops take them.
    - [size_t] values are numbers below [2^64]; the one place where the
      source mixes [size_t] with a negative [int] has its wrap-around
      written out ([size_t_plus_int]).
    - [std::map<size_t,T>] is a [gmap N T]; [operator[]] is [subscript],
      which inserts a default-constructed value when the key is absent;
      iteration from [begin()] to [end()] is [iterate], in key order.
    - [std::vector<T>] is a [list T] read with [!!]; a read outside the
      vector, a signed overflow and a read of an empty [cv::Mat] have no
      defined result: functions that can reach one return [option].
    - OpenCV, [<cmath>] and the protobuf wire format are collaborators:
      they are parameters of the embedding ([OpenCV], [Libm]) or, for the
      file contents, represented by what the parser returns. Console
      output and [ShutdownProtobufLibrary] change nothing that is modelled
      and are left out. *)

From Stdlib Require Import ZArith Floats Uint63 Lia.
From stdpp Require Import gmap strings list list_numbers sorting.

(** ** Machine numbers *)

Abbreviation double := float.

Definition INT_MAX : Z := 2147483647.
Definition INT_MIN : Z := -2147483648.

(** [i + j] for [size_t i] and [int j]: [j] is converted to [size_t] and
    the sum is taken modulo [2^64]. *)
Definition size_t_plus_int (i j : Z) : Z := ((i + j) mod 2 ^ 64)%Z.

(** [int64_t] to [size_t], as a map key. *)
Definition size_t_of_int64 (z : Z) : N := Z.to_N (z mod 2 ^ 64).

(** [int64_t] to [int], as in [int videoLenght = ...info.video_length]:
    the value modulo [2^32] that lies between [INT_MIN] and [INT_MAX]. *)
Definition int_of_int64 (z : Z) : Z := ((z - INT_MIN) mod 2 ^ 32 + INT_MIN)%Z.

(** [-w] on [int]. *)
Definition int_neg (w : Z) : option Z :=
  if decide (w = INT_MIN) then None else Some (- w)%Z.

(** [n++] on [int]. *)
Definition int_incr (n : Z) : option Z :=
  if decide (n = INT_MAX) then None else Some (n + 1)%Z.

(** [int] to [double]. *)
Definition double_of_int (n : Z) : double :=
  if decide (n < 0)%Z then (- of_uint63 (Uint63.of_Z (- n)))%float
  else of_uint63 (Uint63.of_Z n).

(** [double] to [float] (binary32, round to nearest even) and back to
    [double]: a protobuf [float] field holds the narrowed value, and
    reading it into a [double] is exact. *)
Definition float_of_double (v : double) : double :=
  match Prim2SF v with
  | S754_finite s m e => SF2Prim (binary_round 24 128 s m e)
  | _ => v
  end.

(** The same value as C++ compares it, [u == v], or both NaN: the sign of
    a zero is not told apart. *)
Definition same_double (u v : double) : Prop :=
  u = v ∨ (u =? v)%float = true.

(** ** Loops that can fail *)

Fixpoint foldlM {A B : Type} (body : B → A → option B) (l : list A) (b : B)
    : option B :=
  match l with
  | [] => Some b
  | a :: l' => b' ← body b a; foldlM body l' b'
  end.

(** ** Data *)

Module TransformParam.
Record t := mk { dx : double; dy : double; da : double }.
End TransformParam.
Abbreviation TransformParam := TransformParam.mk.

Module CamTrajectory.
Record t := mk { x : double; y : double; a : double }.
End CamTrajectory.
Abbreviation CamTrajectory := CamTrajectory.mk.

(** A 2x3 [CV_64F] matrix; [Mat2x3.at_ T r c] is [T.at<double>(r,c)]. *)
Module Mat2x3.
Record t := mk
  { m00 : double; m01 : double; m02 : double;
    m10 : double; m11 : double; m12 : double }.
Definition at_ (T : t) (r c : nat) : double :=
  match r, c with
  | 0, 0 => m00 T | 0, 1 => m01 T | 0, _ => m02 T
  | _, 0 => m10 T | _, 1 => m11 T | _, _ => m12 T
  end.
End Mat2x3.

(** The default constructors [TransformParam()] and [CamTrajectory()] are
    declared in a header that is not among the sources. They are taken as
    given: the value found in the map node created for key [k]. *)
Class DefaultCtor := {
  TransformParam_default : N → TransformParam.t;
  CamTrajectory_default : N → CamTrajectory.t
}.

(** ** std::map *)

(** [m[k]] as an expression: the value, and the map after the access. *)
Definition subscript {A : Type} (dflt : N → A) (m : gmap N A) (k : N)
    : A * gmap N A :=
  match m !! k with
  | Some v => (v, m)
  | None => (dflt k, <[k := dflt k]> m)
  end.

Definition key_le {A : Type} (p q : N * A) : Prop := (p.1 ≤ q.1)%N.

#[global] Instance key_le_dec {A : Type} (p q : N * A) : Decision (key_le p q).
Proof. unfold key_le. apply _. Defined.

#[global] Instance key_le_total {A : Type} : Total (@key_le A).
Proof. intros p q. unfold key_le. lia. Qed.

#[global] Instance key_le_trans {A : Type} : Transitive (@key_le A).
Proof. intros p q r. unfold key_le. lia. Qed.

(** [begin()] to [end()]: the entries in increasing key order. *)
Definition iterate {A : Type} (m : gmap N A) : list (N * A) :=
  merge_sort key_le (map_to_list m).

(** ** The stabilization message (protobuf) *)

Module Frame.
Record t := mk
  { id : N;
    x : double; y : double; a : double;
    dx : double; dy : double; da : double }.
End Frame.

Module Stabilization.
Record t := mk { frame : list Frame.t; last_updated : option Z }.
End Stabilization.

(** The wire encoding belongs to the protobuf library. A file is what
    [ParseFromIstream] makes of its bytes: [Some] message, or [None] when the
    bytes are rejected. A path without a file cannot be opened for reading;
    [writable] tells whether an output stream can be opened on a path. *)
Module filesystem.
Record t := mk
  { files : gmap string (option Stabilization.t);
    writable : string → bool }.
End filesystem.

Definition ParseFromIstream (fs : filesystem.t) (path : string)
    : option Stabilization.t :=
  f ← filesystem.files fs !! path; f.

Definition SerializeToOstream (fs : filesystem.t) (path : string)
    (msg : Stabilization.t) : bool * filesystem.t :=
  if filesystem.writable fs path
  then (true, filesystem.mk (<[path := Some msg]> (filesystem.files fs))
                            (filesystem.writable fs))
  else (false, fs).

(** ** Collaborators *)

(** [<cmath>]. *)
Class Libm := {
  cos : double → double;
  sin : double → double;
  atan2 : double → double → double
}.

(** OpenCV. An image [cv::Mat] is [None] when empty. *)
Class OpenCV := {
  pixels : Type;
  Point2f : Type;
  cvtColor_RGB2GRAY : option pixels → option pixels;
  goodFeaturesToTrack : option pixels → list Point2f;
  calcOpticalFlowPyrLK :
    option pixels → option pixels → list Point2f → list Point2f * list bool;
  estimateRigidTransform : list Point2f → list Point2f → option Mat2x3.t;
  warpAffine : option pixels → Mat2x3.t → option pixels;
  getRotationMatrix2D : double → double → double → double → Mat2x3.t;
  cols : option pixels → Z;
  rows : option pixels → Z
}.

Abbreviation image := (option pixels).

(** What [ProcessClip] uses of a clip; [video_length] is the [int64_t]
    member [info.video_length] of its reader. *)
Module Clip.
Record t `{OpenCV} := mk { video_length : Z; GetFrame : Z → image }.
End Clip.

(** ** CVStabilization.cpp *)

Module CVStabilization.

Section Methods.
Context `{OpenCV} `{Libm} `{DefaultCtor}.

(** The members the methods read and write. An empty [cv::Mat] is [None].
    The members [cur] and [prev] are only ever copied into one another and
    are left out. *)
Record t := mk
  { last_T : option Mat2x3.t;
    prev_grey : image;
    prev_to_cur_transform : list TransformParam.t;
    smoothingWindow : Z;
    trajectoryData : gmap N CamTrajectory.t;
    transformationData : gmap N TransformParam.t }.

(** The constructors: the window is stored as given. *)
Definition new (_smoothingWindow : Z) : t :=
  mk None None [] _smoothingWindow ∅ ∅.

Definition new_default : t := new 30.

(** "Remove untracked features": the loop over [status] that reads
    [prev_corner[i]] and [cur_corner[i]]. *)
Definition remove_untracked (status : list bool)
    (prev_corner cur_corner : list Point2f)
    : option (list Point2f * list Point2f) :=
  foldlM
    (λ '(prev_corner2, cur_corner2) i,
       s ← status !! i;
       if s : bool then
         p ← prev_corner !! i;
         c ← cur_corner !! i;
         Some (prev_corner2 ++ [p], cur_corner2 ++ [c])
       else Some (prev_corner2, cur_corner2))
    (seq 0 (length status)) ([], []).

Definition TrackFrameFeatures (self : t) (frame : image) (frameNum : Z)
    : option t :=
  match prev_grey self with
  | None =>
      (* prev_grey.empty(): keep the frame and return *)
      Some (mk (last_T self) frame (prev_to_cur_transform self)
               (smoothingWindow self) (trajectoryData self)
               (transformationData self))
  | Some _ =>
      let prev_corner := goodFeaturesToTrack (prev_grey self) in
      let '(cur_corner, status) :=
        calcOpticalFlowPyrLK (prev_grey self) frame prev_corner in
      '(prev_corner2, cur_corner2) ←
        remove_untracked status prev_corner cur_corner;
      let T := estimateRigidTransform prev_corner2 cur_corner2 in
      (* if(T.data == NULL) last_T.copyTo(T) *)
      let T := match T with None => last_T self | Some _ => T end in
      (* T.copyTo(last_T), then T.at<double>(..) *)
      M ← T;
      let dx := Mat2x3.at_ M 0 2 in
      let dy := Mat2x3.at_ M 1 2 in
      let da := atan2 (Mat2x3.at_ M 1 0) (Mat2x3.at_ M 0 0) in
      Some (mk T frame
               (prev_to_cur_transform self ++ [TransformParam dx dy da])
               (smoothingWindow self) (trajectoryData self)
               (transformationData self))
  end.

(** The accumulation loop, with its three running sums. *)
Fixpoint ComputeFramesTrajectory_loop (rest : list TransformParam.t)
    (x y a : double) (trajectory : list CamTrajectory.t)
    : list CamTrajectory.t :=
  match rest with
  | [] => trajectory
  | p :: rest' =>
      let x := (x + TransformParam.dx p)%float in
      let y := (y + TransformParam.dy p)%float in
      let a := (a + TransformParam.da p)%float in
      ComputeFramesTrajectory_loop rest' x y a
        (trajectory ++ [CamTrajectory x y a])
  end.

Definition ComputeFramesTrajectory (self : t) : list CamTrajectory.t :=
  ComputeFramesTrajectory_loop (prev_to_cur_transform self) 0 0 0 [].

(** One pass of the inner loop of [SmoothTrajectory] at offset [j]. *)
Definition SmoothTrajectory_window (trajectory : list CamTrajectory.t)
    (i : nat) (acc : double * double * double * Z) (j : Z)
    : option (double * double * double * Z) :=
  let '(sum_x, sum_y, sum_a, count) := acc in
  let k := size_t_plus_int (Z.of_nat i) j in
  if bool_decide (0 ≤ k)%Z && bool_decide (k < Z.of_nat (length trajectory))%Z
  then
    c ← trajectory !! Z.to_nat k;
    count' ← int_incr count;
    Some ((sum_x + CamTrajectory.x c)%float,
          (sum_y + CamTrajectory.y c)%float,
          (sum_a + CamTrajectory.a c)%float, count')
  else Some acc.

(** [for(int j = -w; j <= w; j++)]: the offsets visited, provided the
    negation and the last increment stay within [int]. *)
Definition window_offsets (w : Z) : option (list Z) :=
  lo ← int_neg w;
  if decide (lo ≤ w)%Z
  then _ ← int_incr w; Some (seqZ lo (w - lo + 1))
  else Some [].

Definition SmoothTrajectory (self : t) (trajectory : list CamTrajectory.t)
    : option (gmap N CamTrajectory.t) :=
  foldlM
    (λ smoothed_trajectory i,
       js ← window_offsets (smoothingWindow self);
       '(sum_x, sum_y, sum_a, count) ←
         foldlM (SmoothTrajectory_window trajectory i) js (0, 0, 0, 0%Z)%float;
       let avg_a := (sum_a / double_of_int count)%float in
       let avg_x := (sum_x / double_of_int count)%float in
       let avg_y := (sum_y / double_of_int count)%float in
       Some (<[N.of_nat i := CamTrajectory avg_x avg_y avg_a]>
               smoothed_trajectory))
    (seq 0 (length trajectory)) ∅.

(** The synthesis loop. [smoothed_trajectory] is passed by reference and
    read with [operator[]], so it is threaded through and returned. *)
Fixpoint GenNewCamPosition_loop (rest : list TransformParam.t) (i : N)
    (x y a : double) (smoothed_trajectory : gmap N CamTrajectory.t)
    (new_prev_to_cur_transform : gmap N TransformParam.t)
    : gmap N TransformParam.t * gmap N CamTrajectory.t :=
  match rest with
  | [] => (new_prev_to_cur_transform, smoothed_trajectory)
  | p :: rest' =>
      let x := (x + TransformParam.dx p)%float in
      let y := (y + TransformParam.dy p)%float in
      let a := (a + TransformParam.da p)%float in
      let '(sx, smoothed_trajectory) :=
        subscript CamTrajectory_default smoothed_trajectory i in
      let diff_x := (CamTrajectory.x sx - x)%float in
      let '(sy, smoothed_trajectory) :=
        subscript CamTrajectory_default smoothed_trajectory i in
      let diff_y := (CamTrajectory.y sy - y)%float in
      let '(sa, smoothed_trajectory) :=
        subscript CamTrajectory_default smoothed_trajectory i in
      let diff_a := (CamTrajectory.a sa - a)%float in
      let dx := (TransformParam.dx p + diff_x)%float in
      let dy := (TransformParam.dy p + diff_y)%float in
      let da := (TransformParam.da p + diff_a)%float in
      GenNewCamPosition_loop rest' (i + 1)%N x y a smoothed_trajectory
        (<[i := TransformParam dx dy da]> new_prev_to_cur_transform)
  end.

Definition GenNewCamPosition (self : t)
    (smoothed_trajectory : gmap N CamTrajectory.t)
    : gmap N TransformParam.t * gmap N CamTrajectory.t :=
  GenNewCamPosition_loop (prev_to_cur_transform self) 0%N 0 0 0
    smoothed_trajectory ∅.

Definition ProcessClip (self : t) (video : Clip.t) : option t :=
  let videoLenght := int_of_int64 (Clip.video_length video) in
  self ←
    foldlM
      (λ self frame_number,
         let cvimage := cvtColor_RGB2GRAY (Clip.GetFrame video frame_number) in
         TrackFrameFeatures self cvimage frame_number)
      (seqZ 0 (videoLenght + 1)) self;
  let trajectory := ComputeFramesTrajectory self in
  smoothed ← SmoothTrajectory self trajectory;
  let '(transformation, smoothed) := GenNewCamPosition self smoothed in
  Some (mk (last_T self) (prev_grey self) (prev_to_cur_transform self)
           (smoothingWindow self) smoothed transformation).

Definition AddFrameDataToProto (trajData : CamTrajectory.t)
    (transData : TransformParam.t) (frame_number : N) : Frame.t :=
  Frame.mk frame_number
    (float_of_double (CamTrajectory.x trajData))
    (float_of_double (CamTrajectory.y trajData))
    (float_of_double (CamTrajectory.a trajData))
    (float_of_double (TransformParam.dx transData))
    (float_of_double (TransformParam.dy transData))
    (float_of_double (TransformParam.da transData)).

(** The loop of [SaveStabilizedData]: [trajData] runs over the trajectory
    map and [transData] is advanced with it; reading [transData] at
    [end()] has no defined result. *)
Fixpoint SaveStabilizedData_loop (trajData : list (N * CamTrajectory.t))
    (transData : list (N * TransformParam.t)) (frames : list Frame.t)
    : option (list Frame.t) :=
  match trajData with
  | [] => Some frames
  | tj :: trajData' =>
      match transData with
      | [] => None
      | tf :: transData' =>
          SaveStabilizedData_loop trajData' transData'
            (frames ++ [AddFrameDataToProto tj.2 tf.2 tj.1])
      end
  end.

(** [now] is [time(NULL)]. *)
Definition SaveStabilizedData (self : t) (outputFilePath : string) (now : Z)
    (fs : filesystem.t) : option (bool * filesystem.t) :=
  frames ←
    SaveStabilizedData_loop (iterate (trajectoryData self))
      (iterate (transformationData self)) [];
  let stabilizationMessage := Stabilization.mk frames (Some now) in
  Some (SerializeToOstream fs outputFilePath stabilizationMessage).

(** The loop of [LoadStabilizedData] over [frame(0)], [frame(1)], ... *)
Fixpoint LoadStabilizedData_loop (frames : list Frame.t) (i : N)
    (trajectoryData : gmap N CamTrajectory.t)
    (transformationData : gmap N TransformParam.t)
    : gmap N CamTrajectory.t * gmap N TransformParam.t :=
  match frames with
  | [] => (trajectoryData, transformationData)
  | pbFrameData :: frames' =>
      let id := Frame.id pbFrameData in
      let x := Frame.x pbFrameData in
      let y := Frame.y pbFrameData in
      let a := Frame.a pbFrameData in
      let trajectoryData := <[i := CamTrajectory x y a]> trajectoryData in
      let dx := Frame.dx pbFrameData in
      let dy := Frame.dy pbFrameData in
      let da := Frame.da pbFrameData in
      let transformationData :=
        <[i := TransformParam dx dy da]> transformationData in
      LoadStabilizedData_loop frames' (i + 1)%N trajectoryData
        transformationData
  end.

Definition LoadStabilizedData (self : t) (inputFilePath : string)
    (fs : filesystem.t) : bool * t :=
  match ParseFromIstream fs inputFilePath with
  | None => (false, self)
  | Some stabilizationMessage =>
      let '(trajectoryData, transformationData) :=
        LoadStabilizedData_loop (Stabilization.frame stabilizationMessage)
          0%N ∅ ∅ in
      (true, mk (last_T self) (prev_grey self) (prev_to_cur_transform self)
                (smoothingWindow self) trajectoryData transformationData)
  end.

End Methods.
End CVStabilization.

(** ** effects/Stabilizer.cpp *)

Module Stabilizer.

Section Methods.
Context `{OpenCV} `{Libm} `{DefaultCtor}.

Record t := mk
  { transformationData : gmap N TransformParam.t;
    trajectoryData : gmap N CamTrajectory.t }.

(** [frame] stands for the image the frame holds; the result is the image
    set on it, and the object after the call. Each
    [transformationData[frame_number]] is one [subscript]. *)
Definition GetFrame (self : t) (frame : image) (frame_number : Z)
    : image * t :=
  let cur := frame in
  let k := size_t_of_int64 frame_number in
  let td := transformationData self in
  let '(e, td) := subscript TransformParam_default td k in
  let T00 := cos (TransformParam.da e) in
  let '(e, td) := subscript TransformParam_default td k in
  let T01 := (- sin (TransformParam.da e))%float in
  let '(e, td) := subscript TransformParam_default td k in
  let T10 := sin (TransformParam.da e) in
  let '(e, td) := subscript TransformParam_default td k in
  let T11 := cos (TransformParam.da e) in
  let '(e, td) := subscript TransformParam_default td k in
  let T02 := TransformParam.dx e in
  let '(e, td) := subscript TransformParam_default td k in
  let T12 := TransformParam.dy e in
  let T := Mat2x3.mk T00 T01 T02 T10 T11 T12 in
  let frame_stabilized := warpAffine cur T in
  (* 1.04 *)
  let T_scale :=
    getRotationMatrix2D
      (float_of_double (double_of_int (cols frame_stabilized ÷ 2)))
      (float_of_double (double_of_int (rows frame_stabilized ÷ 2)))
      0 0x1.0a3d70a3d70a4p+0 in
  let frame_stabilized := warpAffine frame_stabilized T_scale in
  (frame_stabilized, mk td (trajectoryData self)).

Fixpoint LoadStabilizedData_loop (frames : list Frame.t) (i : N)
    (trajectoryData : gmap N CamTrajectory.t)
    (transformationData : gmap N TransformParam.t)
    : gmap N CamTrajectory.t * gmap N TransformParam.t :=
  match frames with
  | [] => (trajectoryData, transformationData)
  | pbFrameData :: frames' =>
      let id := Frame.id pbFrameData in
      let x := Frame.x pbFrameData in
      let y := Frame.y pbFrameData in
      let a := Frame.a pbFrameData in
      let trajectoryData := <[i := CamTrajectory x y a]> trajectoryData in
      let dx := Frame.dx pbFrameData in
      let dy := Frame.dy pbFrameData in
      let da := Frame.da pbFrameData in
      let transformationData :=
        <[i := TransformParam dx dy da]> transformationData in
      LoadStabilizedData_loop frames' (i + 1)%N trajectoryData
        transformationData
  end.

Definition LoadStabilizedData (self : t) (inputFilePath : string)
    (fs : filesystem.t) : bool * t :=
  match ParseFromIstream fs inputFilePath with
  | None => (false, self)
  | Some stabilizationMessage =>
      let '(trajectoryData, transformationData) :=
        LoadStabilizedData_loop (Stabilization.frame stabilizationMessage)
          0%N ∅ ∅ in
      (true, mk transformationData trajectoryData)
  end.

(** [Stabilizer()] and [Stabilizer(clipStabilizedDataPath)]; the second
    drops the result of the load. *)
Definition new : t := mk ∅ ∅.

Definition new_from (clipStabilizedDataPath : string) (fs : filesystem.t) : t :=
  (LoadStabilizedData new clipStabilizedDataPath fs).2.

End Methods.
End Stabilizer.

(** ** The specification's words, as definitions to compare with *)

Module Spec.

(** "the component-wise sum of deltas[0..i] inclusive", for the component
    [f], taken from zero in index order. *)
Definition prefix_sum (f : TransformParam.t → double)
    (deltas : list TransformParam.t) (i : nat) : double :=
  foldl (λ s p, (s + f p)%float) 0%float (take (S i) deltas).

Definition CameraTrajectory (deltas : list TransformParam.t) (i : nat)
    : CamTrajectory.t :=
  CamTrajectory (prefix_sum TransformParam.dx deltas i)
                (prefix_sum TransformParam.dy deltas i)
                (prefix_sum TransformParam.da deltas i).

(** "all indices j in [i−W, i+W] that exist in the trajectory" of length
    [n]. *)
Definition window (n : nat) (w : Z) (i : nat) : list Z :=
  filter (λ j, Z.of_nat i - w ≤ j ≤ Z.of_nat i + w)%Z (seqZ 0 (Z.of_nat n)).

(** The arithmetic mean of the component [f]: the sum from zero in index
    order, over the number of entries summed. *)
Definition mean (f : CamTrajectory.t → double) (cs : list CamTrajectory.t)
    : double :=
  (foldl (λ s c, s + f c) 0 cs / double_of_int (Z.of_nat (length cs)))%float.

Definition mean3 (cs : list CamTrajectory.t) : CamTrajectory.t :=
  CamTrajectory (mean CamTrajectory.x cs) (mean CamTrajectory.y cs)
                (mean CamTrajectory.a cs).

Definition window_mean (trajectory : list CamTrajectory.t) (w : Z) (i : nat)
    : CamTrajectory.t :=
  mean3 (omap (λ j, trajectory !! Z.to_nat j)
              (window (length trajectory) w i)).

(** Equal as C++ compares the components. *)
Definition same_trajectory (c c' : CamTrajectory.t) : Prop :=
  same_double (CamTrajectory.x c) (CamTrajectory.x c') ∧
  same_double (CamTrajectory.y c) (CamTrajectory.y c') ∧
  same_double (CamTrajectory.a c) (CamTrajectory.a c').

(** A stored entry after a save and a load: each component narrowed to
    single precision. *)
Definition narrow_trajectory (c : CamTrajectory.t) : CamTrajectory.t :=
  CamTrajectory (float_of_double (CamTrajectory.x c))
                (float_of_double (CamTrajectory.y c))
                (float_of_double (CamTrajectory.a c)).

Definition narrow_transform (p : TransformParam.t) : TransformParam.t :=
  TransformParam (float_of_double (TransformParam.dx p))
                 (float_of_double (TransformParam.dy p))
                 (float_of_double (TransformParam.da p)).

(** The key set [{0, ..., n-1}]. *)
Definition keys_below {A : Type} (n : nat) (m : gmap N A) : Prop :=
  ∀ k : N, is_Some (m !! k) ↔ (k < N.of_nat n)%N.

End Spec.

(** ** Stand-ins for the collaborators

    Small executable instances, used to evaluate the embedding on concrete
    inputs. An image is the list of its feature points; a warp moves every
    point; the estimator wants three tracked points, as OpenCV's does, and
    then reports the translation between the first ones. The trigonometric
    functions are their small-angle forms, exact at angle zero. *)

Module Doubles.

Definition apply (T : Mat2x3.t) (p : double * double) : double * double :=
  ((Mat2x3.m00 T * p.1 + Mat2x3.m01 T * p.2 + Mat2x3.m02 T)%float,
   (Mat2x3.m10 T * p.1 + Mat2x3.m11 T * p.2 + Mat2x3.m12 T)%float).

Definition libm : Libm :=
  {| cos := λ t, (1 - t * t / 2)%float;
     sin := λ t, t;
     atan2 := λ y x, (y / x)%float |}.

Definition opencv : OpenCV :=
  {| pixels := list (double * double);
     Point2f := double * double;
     cvtColor_RGB2GRAY := λ img, img;
     goodFeaturesToTrack := λ img, default [] img;
     calcOpticalFlowPyrLK := λ prev next pts,
       let found := default [] next in
       (imap (λ i _, default (0, 0)%float (found !! i)) pts,
        imap (λ i _, bool_decide (i < length found)) pts);
     estimateRigidTransform := λ prev cur,
       match prev, cur with
       | p :: _ :: _ :: _, c :: _ :: _ :: _ =>
           Some (Mat2x3.mk 1 0 (c.1 - p.1) 0 1 (c.2 - p.2))%float
       | _, _ => None
       end;
     warpAffine := λ img T, fmap (M := list) (apply T) <$> img;
     getRotationMatrix2D := λ cx cy angle scale,
       (Mat2x3.mk scale 0 ((1 - scale) * cx) 0 scale ((1 - scale) * cy))%float;
     cols := λ _, 640%Z;
     rows := λ _, 480%Z |}.

(** Default constructors that leave zeros. *)
Definition ctor : DefaultCtor :=
  {| TransformParam_default := λ _, TransformParam 0 0 0;
     CamTrajectory_default := λ _, CamTrajectory 0 0 0 |}.

End Doubles.

(** ** Reading the code

    Definitions that name a part of a function, for the statements and the
    proofs below. *)

(** A mantissa and exponent in the canonical form of binary64. *)
Definition canonical64 (m : positive) (e : Z) : Prop :=
  (Z.max (Z.pos (digits2_pos m) + e - 53) (-1074) = e ∧ e ≤ 971)%Z.

(** The entry the inner loop of [SmoothTrajectory] adds at offset [j] from
    index [i], if any, with the guard read over the integers. *)
Definition window_entry (trajectory : list CamTrajectory.t) (i : nat) (j : Z)
    : option CamTrajectory.t :=
  if decide (0 ≤ Z.of_nat i + j < Z.of_nat (length trajectory))%Z
  then trajectory !! Z.to_nat (Z.of_nat i + j)
  else None.

Definition add_entry (acc : double * double * double * Z) (c : CamTrajectory.t)
    : double * double * double * Z :=
  let '(sum_x, sum_y, sum_a, count) := acc in
  ((sum_x + CamTrajectory.x c)%float, (sum_y + CamTrajectory.y c)%float,
   (sum_a + CamTrajectory.a c)%float, (count + 1)%Z).

#[global] Instance CamTrajectory_inhabited : Inhabited CamTrajectory.t :=
  populate (CamTrajectory 0 0 0).

#[global] Instance TransformParam_inhabited : Inhabited TransformParam.t :=
  populate (TransformParam 0 0 0).

(** What a loaded frame record becomes in the two maps. *)
Definition Frame_trajectory (pb : Frame.t) : CamTrajectory.t :=
  CamTrajectory (Frame.x pb) (Frame.y pb) (Frame.a pb).

Definition Frame_transform (pb : Frame.t) : TransformParam.t :=
  TransformParam (Frame.dx pb) (Frame.dy pb) (Frame.da pb).

(** What [Stabilizer::GetFrame] does to the image once it holds the entry
    [e] of the frame: the warp by the matrix built from [e], then the
    fixed zoom. *)
Definition warp_with `{OpenCV} `{Libm} (e : TransformParam.t) (cur : image)
    : image :=
  let T :=
    Mat2x3.mk (cos (TransformParam.da e)) (- sin (TransformParam.da e))%float
              (TransformParam.dx e)
              (sin (TransformParam.da e)) (cos (TransformParam.da e))
              (TransformParam.dy e) in
  let frame_stabilized := warpAffine cur T in
  let T_scale :=
    getRotationMatrix2D
      (float_of_double (double_of_int (cols frame_stabilized ÷ 2)))
      (float_of_double (double_of_int (rows frame_stabilized ÷ 2)))
      0 0x1.0a3d70a3d70a4p+0 in
  warpAffine frame_stabilized T_scale.

(** The corners [TrackFrameFeatures] hands to the estimator. *)
Definition tracked_corners `{OpenCV} (prev_grey frame : image)
    : option (list Point2f * list Point2f) :=
  let prev_corner := goodFeaturesToTrack prev_grey in
  let '(cur_corner, status) :=
    calcOpticalFlowPyrLK prev_grey frame prev_corner in
  CVStabilization.remove_untracked status prev_corner cur_corner.

(** The motion delta read off a transform. *)
Definition decompose `{Libm} (M : Mat2x3.t) : TransformParam.t :=
  TransformParam (Mat2x3.at_ M 0 2) (Mat2x3.at_ M 1 2)
                 (atan2 (Mat2x3.at_ M 1 0) (Mat2x3.at_ M 0 0)).

(** ** Concrete inputs *)

Module Examples.

(** A frame with three feature points, and a frame with a single one: on
    the second the estimator has too few correspondences. *)
Definition textured : option (@pixels Doubles.opencv) :=
  Some [(1, 1); (2, 1); (1, 2)]%float.
Definition sparse : option (@pixels Doubles.opencv) := Some [(1, 1)%float].

(** A clip of three frames whose feature points move one pixel a frame. *)
Definition panning : Clip.t (H := Doubles.opencv) :=
  @Clip.mk Doubles.opencv 2
    (λ n, Some [(double_of_int n, 0); (double_of_int n + 1, 0);
                (double_of_int n, 1)]%float).

(** A trajectory of four entries, and an analysis object with window 1. *)
Definition trajectory : list CamTrajectory.t :=
  [CamTrajectory 1 0 0; CamTrajectory 2 0 0; CamTrajectory 1 0 0;
   CamTrajectory 2 0 0].

Definition window1 : CVStabilization.t (H := Doubles.opencv) :=
  CVStabilization.mk None None
    [TransformParam 1 0 0; TransformParam 1 0 0; TransformParam (-1) 0 0;
     TransformParam 1 0 0] 1 ∅ ∅.

Definition path : string := "clip.stabilization".

(** An empty disk on which every path can be written. *)
Definition disk : filesystem.t := filesystem.mk ∅ (λ _, true).

(** Two frame records, with ids 0 and 1. *)
Definition record0 : Frame.t := Frame.mk 0 1 2 3 4 5 6.
Definition record1 : Frame.t := Frame.mk 1 10 20 30 40 50 60.

(** The same two records in the two possible orders. *)
Definition disk_in_order : filesystem.t :=
  filesystem.mk
    {[ path := Some (Stabilization.mk [record0; record1] (Some 0%Z)) ]}
    (λ _, true).

Definition disk_swapped : filesystem.t :=
  filesystem.mk
    {[ path := Some (Stabilization.mk [record1; record0] (Some 0%Z)) ]}
    (λ _, true).

(** A file that is there and does not parse. *)
Definition disk_garbled : filesystem.t :=
  filesystem.mk {[ path := None ]} (λ _, true).

(** An analysis object after a run over three frames: two deltas, and the
    two maps with the keys 0 and 1. *)
Definition analysed : CVStabilization.t (H := Doubles.opencv) :=
  CVStabilization.mk None None
    [TransformParam 1 0 0; TransformParam 1 0 0] 1
    {[ 0%N := CamTrajectory 1.5 0 0; 1%N := CamTrajectory 1.5 0 0 ]}
    {[ 0%N := TransformParam 1.5 0 0; 1%N := TransformParam 0.5 0 0 ]}.

(** Maps that do not share their keys: the transforms are at 0 and 7. *)
Definition mismatched : CVStabilization.t (H := Doubles.opencv) :=
  CVStabilization.mk None None [] 30
    {[ 0%N := CamTrajectory 1 2 3; 1%N := CamTrajectory 4 5 6 ]}
    {[ 0%N := TransformParam 7 8 9; 7%N := TransformParam 10 11 12 ]}.

(** Maps that share their keys, 0 and 7, and the disk after they have been
    saved. *)
Definition gapped : CVStabilization.t (H := Doubles.opencv) :=
  CVStabilization.mk None None [] 30
    {[ 0%N := CamTrajectory 1 2 3; 7%N := CamTrajectory 4 5 6 ]}
    {[ 0%N := TransformParam 7 8 9; 7%N := TransformParam 10 11 12 ]}.

Definition gapped_disk : filesystem.t :=
  from_option snd disk (CVStabilization.SaveStabilizedData gapped path 0 disk).

End Examples.

(** ** Reading the code, continued *)

(** The corners "Remove untracked features" keeps: those whose status is
    set, in their order. *)
Fixpoint tracked {A : Type} (status : list bool) (corners : list A) : list A :=
  match status, corners with
  | s :: status', c :: corners' =>
      if s then c :: tracked status' corners' else tracked status' corners'
  | _, _ => []
  end.

(** The divisor the inner loop of [SmoothTrajectory] reaches at index [i]:
    its [count] when the loop is left. *)
Definition SmoothTrajectory_count (w : Z) (trajectory : list CamTrajectory.t)
    (i : nat) : option Z :=
  js ← CVStabilization.window_offsets w;
  '(_, _, _, count) ←
    foldlM (CVStabilization.SmoothTrajectory_window trajectory i) js
      (0, 0, 0, 0%Z)%float;
  Some count.

(** The first loop of [ProcessClip]: one call of [TrackFrameFeatures] for
    each frame number from 0 to [videoLenght], the video length as an
    [int]. *)
Definition ProcessClip_track `{OpenCV} `{Libm} `{DefaultCtor}
    (self : CVStabilization.t) (video : Clip.t) : option CVStabilization.t :=
  foldlM
    (λ self frame_number,
       let cvimage := cvtColor_RGB2GRAY (Clip.GetFrame video frame_number) in
       CVStabilization.TrackFrameFeatures self cvimage frame_number)
    (seqZ 0 (int_of_int64 (Clip.video_length video) + 1)) self.

(** * Properties *)

(** ** Lists, loops and maps *)

Lemma subscript_value {A : Type} (dflt : N → A) (m : gmap N A) (k : N) :
  (subscript dflt m k).1 = default (dflt k) (m !! k).
Proof. unfold subscript. by destruct (m !! k). Qed.

Lemma subscript_map {A : Type} (dflt : N → A) (m : gmap N A) (k : N) :
  (subscript dflt m k).2
  = match m !! k with Some _ => m | None => <[k := dflt k]> m end.
Proof. unfold subscript. by destruct (m !! k). Qed.

Lemma subscript_lookup_ne {A : Type} (dflt : N → A) (m : gmap N A) (k k' : N) :
  k ≠ k' → (subscript dflt m k).2 !! k' = m !! k'.
Proof.
  intros Hne. rewrite subscript_map.
  destruct (m !! k); [done|]. by rewrite lookup_insert_ne.
Qed.

(** A second [m[k]] finds what the first one left. *)
Lemma subscript_again {A : Type} (dflt : N → A) (m : gmap N A) (k : N) :
  subscript dflt (subscript dflt m k).2 k = subscript dflt m k.
Proof.
  unfold subscript. destruct (m !! k) eqn:E; simpl.
  - by rewrite E.
  - by rewrite lookup_insert_eq.
Qed.

(** ** Trajectory accumulation *)

Section Accumulation.
Context `{OpenCV} `{Libm} `{DefaultCtor}.
Import CVStabilization.

Lemma ComputeFramesTrajectory_loop_spec (rest : list TransformParam.t) :
  ∀ (x y a : double) (trajectory : list CamTrajectory.t),
    ComputeFramesTrajectory_loop rest x y a trajectory
    = trajectory ++
      ((λ i, CamTrajectory
               (foldl (λ s p, (s + TransformParam.dx p)%float) x (take (S i) rest))
               (foldl (λ s p, (s + TransformParam.dy p)%float) y (take (S i) rest))
               (foldl (λ s p, (s + TransformParam.da p)%float) a (take (S i) rest)))
       <$> seq 0 (length rest)).
Proof.
  induction rest as [|p rest IH]; intros x y a trajectory; simpl.
  - by rewrite app_nil_r.
  - rewrite IH, <- app_assoc. f_equal. simpl. f_equal.
    rewrite <- fmap_S_seq, <- list_fmap_compose. done.
Qed.

Lemma ComputeFramesTrajectory_eq (self : t) :
  ComputeFramesTrajectory self
  = Spec.CameraTrajectory (prev_to_cur_transform self)
    <$> seq 0 (length (prev_to_cur_transform self)).
Proof.
  unfold ComputeFramesTrajectory.
  by rewrite ComputeFramesTrajectory_loop_spec.
Qed.

Lemma ComputeFramesTrajectory_lookup (self : t) (i : nat) :
  ComputeFramesTrajectory self !! i
  = (λ _, Spec.CameraTrajectory (prev_to_cur_transform self) i)
    <$> prev_to_cur_transform self !! i.
Proof.
  rewrite ComputeFramesTrajectory_eq, list_lookup_fmap.
  destruct (decide (i < length (prev_to_cur_transform self))) as [Hi|Hi].
  - rewrite lookup_seq_lt by done.
    destruct (lookup_lt_is_Some_2 _ _ Hi) as [p ->]. done.
  - rewrite lookup_seq_ge by lia.
    rewrite (lookup_ge_None_2 (prev_to_cur_transform self)) by lia. done.
Qed.

(** C2: the trajectory returned by ComputeFramesTrajectory has one entry
    per motion delta, and its entry at index i is, for x, y and the angle
    independently, the sum of the deltas 0 through i; the accumulated angle
    is that sum and nothing else (it is neither normalized nor wrapped). *)
Theorem ComputeFramesTrajectory_prefix_sum (self : t) :
  length (ComputeFramesTrajectory self) = length (prev_to_cur_transform self) ∧
  ∀ i : nat,
    ComputeFramesTrajectory self !! i
    = (λ _, CamTrajectory
        (Spec.prefix_sum TransformParam.dx (prev_to_cur_transform self) i)
        (Spec.prefix_sum TransformParam.dy (prev_to_cur_transform self) i)
        (Spec.prefix_sum TransformParam.da (prev_to_cur_transform self) i))
      <$> prev_to_cur_transform self !! i.
Proof.
  split.
  - by rewrite ComputeFramesTrajectory_eq, length_fmap, length_seq.
  - intros i. apply ComputeFramesTrajectory_lookup.
Qed.

(** ** Transform synthesis *)

Lemma GenNewCamPosition_loop_lookup (rest : list TransformParam.t) :
  ∀ (i0 : N) (x y a : double) (sm : gmap N CamTrajectory.t)
    (acc : gmap N TransformParam.t) (k : N),
    (GenNewCamPosition_loop rest i0 x y a sm acc).1 !! k
    = if decide (i0 ≤ k)%N then
        match rest !! N.to_nat (k - i0) with
        | Some p =>
            let s := default (CamTrajectory_default k) (sm !! k) in
            let j := N.to_nat (k - i0) in
            Some (TransformParam
              (TransformParam.dx p + (CamTrajectory.x s -
                 foldl (λ s p, s + TransformParam.dx p) x (take (S j) rest)))
              (TransformParam.dy p + (CamTrajectory.y s -
                 foldl (λ s p, s + TransformParam.dy p) y (take (S j) rest)))
              (TransformParam.da p + (CamTrajectory.a s -
                 foldl (λ s p, s + TransformParam.da p) a (take (S j) rest))))%float
        | None => acc !! k
        end
      else acc !! k.
Proof.
  induction rest as [|p rest IH]; intros i0 x y a sm acc k.
  - simpl. by case_decide.
  - cbn [GenNewCamPosition_loop].
    destruct (subscript CamTrajectory_default sm i0) as [s1 sm1] eqn:E1.
    assert (E2 : subscript CamTrajectory_default sm1 i0 = (s1, sm1)).
    { pose proof (subscript_again CamTrajectory_default sm i0) as E.
      by rewrite E1 in E. }
    rewrite !E2, IH.
    assert (Hs : s1 = default (CamTrajectory_default i0) (sm !! i0)).
    { by rewrite <- subscript_value, E1. }
    assert (Hsm : ∀ k', i0 ≠ k' → sm1 !! k' = sm !! k').
    { intros k' Hne. pose proof (subscript_lookup_ne CamTrajectory_default sm i0 k' Hne) as E.
      by rewrite E1 in E. }
    destruct (decide (k = i0)) as [->|Hne].
    + rewrite decide_False, decide_True by lia.
      rewrite lookup_insert_eq.
      replace (N.to_nat (i0 - i0)) with 0 by lia. simpl. by rewrite Hs.
    + destruct (decide (i0 ≤ k)%N) as [Hle|Hgt].
      * rewrite decide_True by lia.
        replace (N.to_nat (k - i0)) with (S (N.to_nat (k - (i0 + 1)))) by lia.
        simpl. rewrite Hsm by done.
        destruct (rest !! _); [done|]. by rewrite lookup_insert_ne.
      * rewrite decide_False by lia. by rewrite lookup_insert_ne.
Qed.

Lemma GenNewCamPosition_lookup (self : t)
    (smoothed_trajectory : gmap N CamTrajectory.t) (i : nat) :
  (GenNewCamPosition self smoothed_trajectory).1 !! N.of_nat i
  = (p ← prev_to_cur_transform self !! i;
     c ← ComputeFramesTrajectory self !! i;
     let s := (subscript CamTrajectory_default smoothed_trajectory
                 (N.of_nat i)).1 in
     Some (TransformParam
       (TransformParam.dx p + (CamTrajectory.x s - CamTrajectory.x c))
       (TransformParam.dy p + (CamTrajectory.y s - CamTrajectory.y c))
       (TransformParam.da p + (CamTrajectory.a s - CamTrajectory.a c)))%float).
Proof.
  unfold GenNewCamPosition.
  rewrite GenNewCamPosition_loop_lookup, ComputeFramesTrajectory_lookup.
  rewrite decide_True by lia.
  replace (N.to_nat (N.of_nat i - 0)) with i by lia.
  destruct (prev_to_cur_transform self !! i) as [p|]; simpl; [|done].
  by rewrite subscript_value.
Qed.

(** C1: at every index i of the motion-delta sequence the corrective
    transform that GenNewCamPosition stores is the raw delta plus the
    difference between the smoothed entry at i and the camera trajectory at
    i, the running sum of the deltas 0 through i: dx against x, dy against
    y and the angle against the angle. The smoothed entry is the one that
    [smoothed_trajectory[i]] yields, and past the last delta nothing is
    stored. *)
Theorem GenNewCamPosition_corrective (self : t)
    (smoothed_trajectory : gmap N CamTrajectory.t) (i : nat) :
  (GenNewCamPosition self smoothed_trajectory).1 !! N.of_nat i
  = (λ p,
       let s := (subscript CamTrajectory_default smoothed_trajectory
                   (N.of_nat i)).1 in
       let c := Spec.CameraTrajectory (prev_to_cur_transform self) i in
       TransformParam
         (TransformParam.dx p + (CamTrajectory.x s - CamTrajectory.x c))
         (TransformParam.dy p + (CamTrajectory.y s - CamTrajectory.y c))
         (TransformParam.da p + (CamTrajectory.a s - CamTrajectory.a c))%float)
    <$> prev_to_cur_transform self !! i.
Proof.
  rewrite GenNewCamPosition_lookup, ComputeFramesTrajectory_lookup.
  by destruct (prev_to_cur_transform self !! i).
Qed.

End Accumulation.

(** ** Facts of binary64 arithmetic

    Dividing by one changes nothing, and adding to a positive zero changes
    at most the sign of a zero. They are read off the specification of the
    primitive operations ([SFdiv], [SFadd]). *)

Lemma div_eucl_shiftl (m : positive) (k : Z) :
  (0 ≤ k)%Z →
  Z.div_eucl (Z.shiftl (Z.pos m) (52 + k)) 4503599627370496
  = (Z.shiftl (Z.pos m) k, 0%Z).
Proof.
  intros Hk.
  assert (Hq : (Z.shiftl (Z.pos m) (52 + k) / 4503599627370496
                = Z.shiftl (Z.pos m) k)%Z).
  { rewrite !Z.shiftl_mul_pow2 by lia. rewrite Z.pow_add_r by lia.
    change (2 ^ 52)%Z with 4503599627370496%Z.
    rewrite (Z.mul_comm 4503599627370496), Z.mul_assoc.
    apply Z.div_mul. lia. }
  assert (Hr : (Z.shiftl (Z.pos m) (52 + k) mod 4503599627370496 = 0)%Z).
  { rewrite !Z.shiftl_mul_pow2 by lia. rewrite Z.pow_add_r by lia.
    change (2 ^ 52)%Z with 4503599627370496%Z.
    rewrite (Z.mul_comm 4503599627370496), Z.mul_assoc.
    apply Z.mod_mul. lia. }
  unfold Z.div in Hq. unfold Z.modulo in Hr.
  destruct (Z.div_eucl _ _) as [q r]. simpl in *. congruence.
Qed.

Lemma bounded_canonical64 m e :
  bounded prec emax m e = true → canonical64 m e.
Proof.
  unfold bounded, canonical_mantissa, fexp, SpecFloat.emin, prec, emax.
  intros [Hc He]%andb_prop. apply Z.eqb_eq in Hc. apply Z.leb_le in He.
  split; lia.
Qed.

Lemma shr_fexp_canonical64 m e :
  canonical64 m e →
  shr_fexp prec emax (Z.pos m) e loc_Exact
  = (Build_shr_record (Z.pos m) false false, e).
Proof.
  intros [Hc He]. unfold shr_fexp, fexp, SpecFloat.emin, prec, emax.
  change (Zdigits2 (Z.pos m)) with (Z.pos (digits2_pos m)).
  replace (_ - e)%Z with 0%Z by lia. reflexivity.
Qed.

Lemma binary_round_aux_canonical64 s m e :
  canonical64 m e →
  binary_round_aux prec emax s (Z.pos m) e loc_Exact = S754_finite s m e.
Proof.
  intros Hc. unfold binary_round_aux.
  rewrite shr_fexp_canonical64 by done. cbn [shr_m loc_of_shr_record round_nearest_even].
  rewrite shr_fexp_canonical64 by done. cbn [shr_m].
  destruct Hc as [_ He]. unfold prec, emax.
  destruct (Z.leb_spec e (1024 - 53)); [done | lia].
Qed.

Lemma binary_round_aux_double s m e :
  canonical64 m e → e ≠ (-1074)%Z →
  binary_round_aux prec emax s (Z.pos m~0) (e - 1) loc_Exact = S754_finite s m e.
Proof.
  intros Hc Hne. unfold binary_round_aux.
  assert (E : shr_fexp prec emax (Z.pos m~0) (e - 1) loc_Exact
              = (Build_shr_record (Z.pos m) false false, e)).
  { destruct Hc as [Hc He]. unfold shr_fexp, fexp, SpecFloat.emin, prec, emax.
    change (Zdigits2 (Z.pos m~0)) with (Z.pos (Pos.succ (digits2_pos m))).
    replace (_ - (e - 1))%Z with 1%Z by lia.
    cbn. f_equal. lia. }
  rewrite E. cbn [shr_m loc_of_shr_record round_nearest_even].
  rewrite shr_fexp_canonical64 by done. cbn [shr_m].
  destruct Hc as [_ He]. unfold prec, emax.
  destruct (Z.leb_spec e (1024 - 53)); [done | lia].
Qed.

Lemma SFdiv_one_finite s m e :
  bounded prec emax m e = true →
  SFdiv prec emax (S754_finite s m e) (S754_finite false 4503599627370496 (-52))
  = S754_finite s m e.
Proof.
  intros Hb%bounded_canonical64.
  assert (Hs : xorb s false = s) by (by destruct s).
  unfold SFdiv, SFdiv_core_binary. rewrite Hs.
  change (Zdigits2 (Z.pos 4503599627370496)) with 53%Z.
  change (Zdigits2 (Z.pos m)) with (Z.pos (digits2_pos m)).
  unfold fexp, SpecFloat.emin, prec, emax.
  pose proof Hb as [Hc He].
  destruct (decide (e = -1074)%Z) as [->|Hne].
  - replace (Z.min _ _) with (-1074)%Z by lia.
    change (-1074 - -52 - -1074)%Z with (52 + 0)%Z.
    change (match (52 + 0)%Z with
            | 0%Z => Z.pos m | Z.pos _ => Z.shiftl (Z.pos m) (52 + 0)
            | Z.neg _ => 0%Z end) with (Z.shiftl (Z.pos m) (52 + 0)).
    rewrite div_eucl_shiftl by lia.
    change (Z.shiftl (Z.pos m) 0) with (Z.pos m).
    change (new_location 4503599627370496 0) with loc_Exact.
    by apply binary_round_aux_canonical64.
  - replace (Z.min _ _) with (e - 1)%Z by lia.
    replace (e - -52 - (e - 1))%Z with (52 + 1)%Z by lia.
    change (match (52 + 1)%Z with
            | 0%Z => Z.pos m | Z.pos _ => Z.shiftl (Z.pos m) (52 + 1)
            | Z.neg _ => 0%Z end) with (Z.shiftl (Z.pos m) (52 + 1)).
    rewrite div_eucl_shiftl by lia.
    change (Z.shiftl (Z.pos m) 1) with (Z.pos m~0).
    change (new_location 4503599627370496 0) with loc_Exact.
    by apply binary_round_aux_double.
Qed.

Lemma div_one (v : float) : (v / 1)%float = v.
Proof.
  apply Prim2SF_inj. rewrite FloatAxioms.div_spec.
  change (Prim2SF 1) with (S754_finite false 4503599627370496 (-52)).
  pose proof (Prim2SF_valid v) as Hv.
  destruct (Prim2SF v) as [s|s| |s m e]; simpl in Hv |- *.
  - by destruct s.
  - by destruct s.
  - done.
  - by apply SFdiv_one_finite.
Qed.

Lemma zero_add (v : float) : v ≠ (-0)%float → (0 + v)%float = v.
Proof.
  intros Hv. apply Prim2SF_inj. rewrite FloatAxioms.add_spec.
  change (Prim2SF 0) with (S754_zero false).
  destruct (Prim2SF v) as [s|s| |s m e] eqn:E; simpl; try done.
  destruct s; [|done]. exfalso. apply Hv.
  apply Prim2SF_inj. by rewrite E.
Qed.

Lemma mean_of_one (v : double) :
  same_double ((0 + v) / double_of_int 1)%float v.
Proof.
  change (double_of_int 1) with 1%float. rewrite div_one.
  destruct (Prim2SF v) as [[]|s| |s m e] eqn:E.
  1: { right. rewrite FloatAxioms.eqb_spec, FloatAxioms.add_spec, E. reflexivity. }
  all: left; apply zero_add; intros ->;
    change (Prim2SF (-0)) with (S754_zero true) in E; discriminate E.
Qed.

Lemma foldlM_Some {A B : Type} (body : B → A → option B) (g : B → A → B)
    (l : list A) :
  ∀ b, (∀ b' a, a ∈ l → body b' a = Some (g b' a)) →
       foldlM body l b = Some (foldl g b l).
Proof.
  induction l as [|a l IH]; intros b Hbody; simpl; [done|].
  rewrite Hbody by apply list_elem_of_here. simpl.
  apply IH. intros b' a' Ha'. apply Hbody. by apply list_elem_of_further.
Qed.

Lemma foldl_insert_lookup {V : Type} (h : nat → V) (l : list nat) :
  ∀ (m : gmap N V) (k : N),
    foldl (λ m i, <[N.of_nat i := h i]> m) m l !! k
    = if decide (N.to_nat k ∈ l) then Some (h (N.to_nat k)) else m !! k.
Proof.
  induction l as [|i l IH]; intros m k; cbn [foldl].
  - rewrite decide_False; [done|]. apply not_elem_of_nil.
  - rewrite IH. destruct (decide (N.to_nat k ∈ l)) as [Hin|Hin].
    + rewrite decide_True; [done|]. by apply list_elem_of_further.
    + destruct (decide (N.to_nat k = i)) as [<-|Hne].
      * rewrite decide_True by apply list_elem_of_here.
        by rewrite N2Nat.id, lookup_insert_eq.
      * rewrite decide_False.
        -- rewrite lookup_insert_ne; [done|]. lia.
        -- intros [?|?]%elem_of_cons; done.
Qed.

Lemma filter_seqZ_interval (lo hi : Z) (n : nat) :
  ∀ a : Z,
    filter (λ z, lo ≤ z ≤ hi)%Z (seqZ a (Z.of_nat n))
    = seqZ (Z.max a lo) (Z.min (a + Z.of_nat n - 1) hi - Z.max a lo + 1).
Proof.
  induction n as [|n IH]; intros a.
  - rewrite !seqZ_nil by lia. done.
  - rewrite (seqZ_cons a) by lia.
    replace (Z.pred (Z.of_nat (S n))) with (Z.of_nat n) by lia.
    rewrite filter_cons, IH. case_decide as Ha.
    + rewrite (seqZ_cons (Z.max a lo)) by lia.
      f_equal; [lia|]. f_equal; lia.
    + destruct (decide (a < lo)%Z).
      * f_equal; lia.
      * rewrite !seqZ_nil by lia. done.
Qed.

(** ** Smoothing *)

Section Smoothing.
Context `{OpenCV} `{Libm} `{DefaultCtor}.
Import CVStabilization.

Lemma window_offsets_nonneg (w : Z) :
  (0 ≤ w < INT_MAX)%Z → window_offsets w = Some (seqZ (- w) (2 * w + 1)).
Proof.
  intros Hw. unfold INT_MAX in Hw. unfold window_offsets, int_neg.
  rewrite decide_False by (unfold INT_MIN; lia). simpl.
  rewrite decide_True by lia. unfold int_incr.
  rewrite decide_False by (unfold INT_MAX; lia). simpl.
  do 2 f_equal. lia.
Qed.

Lemma window_offsets_neg (w : Z) :
  (INT_MIN < w < 0)%Z → window_offsets w = Some [].
Proof.
  intros Hw. unfold INT_MIN in Hw. unfold window_offsets, int_neg.
  rewrite decide_False by (unfold INT_MIN; lia). simpl.
  by rewrite decide_False by lia.
Qed.

(** The guard [i+j >= 0 && i+j < trajectory.size()] is evaluated on
    [size_t]: a negative [i+j] wraps to a number no vector is as long as. *)
Lemma SmoothTrajectory_window_entry (trajectory : list CamTrajectory.t)
    (i : nat) (acc : double * double * double * Z) (j : Z) :
  (Z.of_nat (length trajectory) ≤ INT_MAX)%Z →
  i < length trajectory →
  (- INT_MAX ≤ j ≤ INT_MAX)%Z →
  (is_Some (window_entry trajectory i j) → acc.2 < INT_MAX)%Z →
  SmoothTrajectory_window trajectory i acc j
  = Some (from_option (add_entry acc) acc (window_entry trajectory i j)).
Proof.
  intros Hn Hi Hj Hcount. destruct acc as [[[sum_x sum_y] sum_a] count].
  unfold SmoothTrajectory_window, window_entry, size_t_plus_int in *.
  unfold INT_MAX in Hn, Hj. cbn [snd] in Hcount.
  destruct (decide (0 ≤ Z.of_nat i + j)%Z) as [Hpos|Hneg].
  - rewrite Z.mod_small by lia.
    rewrite bool_decide_true by lia.
    destruct (decide (Z.of_nat i + j < Z.of_nat (length trajectory))%Z)
      as [Hlt|Hge].
    + rewrite bool_decide_true by lia. rewrite decide_True in Hcount |- * by lia.
      destruct (lookup_lt_is_Some_2 trajectory (Z.to_nat (Z.of_nat i + j)))
        as [c Hc]; [lia|].
      rewrite Hc in Hcount |- *. simpl. unfold int_incr.
      rewrite decide_False; [done|]. specialize (Hcount (mk_is_Some _ _ eq_refl)).
      lia.
    + rewrite bool_decide_false by lia. rewrite decide_False by lia.
      by rewrite andb_false_r.
  - assert (E : ((Z.of_nat i + j) mod 2 ^ 64 = Z.of_nat i + j + 2 ^ 64)%Z).
    { symmetry. apply (Z.mod_unique _ _ (-1)); lia. }
    rewrite E. rewrite (bool_decide_false (_ < _)%Z) by lia.
    rewrite decide_False by lia. by rewrite andb_false_r.
Qed.

Lemma SmoothTrajectory_window_fold (trajectory : list CamTrajectory.t)
    (i : nat) (js : list Z) :
  (Z.of_nat (length trajectory) ≤ INT_MAX)%Z →
  i < length trajectory →
  Forall (λ j, - INT_MAX ≤ j ≤ INT_MAX)%Z js →
  ∀ acc,
    (acc.2 + Z.of_nat (length (omap (window_entry trajectory i) js))
     ≤ INT_MAX)%Z →
    foldlM (SmoothTrajectory_window trajectory i) js acc
    = Some (foldl add_entry acc (omap (window_entry trajectory i) js)).
Proof.
  intros Hn Hi Hjs. induction Hjs as [|j js Hj Hjs IH]; intros acc Hc; [done|].
  cbn [foldlM omap list_omap] in *.
  rewrite SmoothTrajectory_window_entry; [|done..|].
  - destruct (window_entry trajectory i j) as [c|]; simpl; apply IH.
    + destruct acc as [[[sum_x sum_y] sum_a] count].
      cbn [length add_entry snd] in *. lia.
    + done.
  - intros [c Hc']. rewrite Hc' in Hc. cbn [length] in Hc. lia.
Qed.

Lemma foldl_add_entry (cs : list CamTrajectory.t) :
  ∀ sum_x sum_y sum_a count,
    foldl add_entry (sum_x, sum_y, sum_a, count) cs
    = (foldl (λ s c, s + CamTrajectory.x c)%float sum_x cs,
       foldl (λ s c, s + CamTrajectory.y c)%float sum_y cs,
       foldl (λ s c, s + CamTrajectory.a c)%float sum_a cs,
       (count + Z.of_nat (length cs))%Z).
Proof.
  induction cs as [|c cs IH]; intros sum_x sum_y sum_a count;
    cbn [foldl length add_entry].
  - by rewrite Z.add_0_r.
  - rewrite IH. f_equal. lia.
Qed.

Lemma length_omap_le {A B : Type} (f : A → option B) (l : list A) :
  length (omap f l) ≤ length l.
Proof.
  induction l as [|x l IH]; [done|]. csimpl.
  destruct (f x); cbn [length]; lia.
Qed.

Lemma omap_window_entry (trajectory : list CamTrajectory.t) (i : nat)
    (js : list Z) :
  omap (window_entry trajectory i) js
  = omap (λ k, trajectory !! Z.to_nat k)
      (filter (λ k, 0 ≤ k ≤ Z.of_nat (length trajectory) - 1)%Z
              (Z.add (Z.of_nat i) <$> js)).
Proof.
  induction js as [|j js IH]; [done|]. csimpl.
  rewrite filter_cons, IH. unfold window_entry at 1.
  destruct (decide (0 ≤ Z.of_nat i + j < Z.of_nat (length trajectory))%Z).
  - rewrite decide_True by lia. done.
  - rewrite decide_False by lia. done.
Qed.

(** The offsets the loop keeps are the indices of the window. *)
Lemma window_entries (trajectory : list CamTrajectory.t) (w : Z) (i : nat) :
  (0 ≤ w)%Z →
  omap (window_entry trajectory i) (seqZ (- w) (2 * w + 1))
  = omap (λ j, trajectory !! Z.to_nat j)
      (Spec.window (length trajectory) w i).
Proof.
  intros Hw. rewrite omap_window_entry, fmap_add_seqZ. f_equal.
  unfold Spec.window.
  replace (2 * w + 1)%Z with (Z.of_nat (Z.to_nat (2 * w + 1))) by lia.
  rewrite !filter_seqZ_interval. f_equal; lia.
Qed.

Lemma window_zero (n i : nat) : i < n → Spec.window n 0 i = [Z.of_nat i].
Proof.
  intros Hi. unfold Spec.window. rewrite filter_seqZ_interval.
  replace (Z.max 0 (Z.of_nat i - 0)) with (Z.of_nat i) by lia.
  replace (_ - Z.of_nat i + 1)%Z with 1%Z by lia. done.
Qed.

Lemma window_all (n : nat) (w : Z) (i : nat) :
  i < n → (Z.of_nat n ≤ w)%Z → Spec.window n w i = seqZ 0 (Z.of_nat n).
Proof.
  intros Hi Hw. unfold Spec.window. rewrite filter_seqZ_interval.
  f_equal; lia.
Qed.

Lemma omap_lookup_seqZ {A : Type} (l : list A) :
  ∀ pre : list A,
    omap (λ j, (pre ++ l) !! Z.to_nat j)
         (seqZ (Z.of_nat (length pre)) (Z.of_nat (length l)))
    = l.
Proof.
  induction l as [|c l IH]; intros pre; [done|].
  rewrite seqZ_cons by (cbn [length]; lia). csimpl.
  rewrite Nat2Z.id, list_lookup_middle by done. f_equal.
  specialize (IH (pre ++ [c])).
  rewrite <- app_assoc, length_app in IH. cbn [length app] in IH.
  etrans; [|exact IH]. f_equal. f_equal; lia.
Qed.

Lemma window_mean_all (trajectory : list CamTrajectory.t) (w : Z) (i : nat) :
  i < length trajectory → (Z.of_nat (length trajectory) ≤ w)%Z →
  Spec.window_mean trajectory w i = Spec.mean3 trajectory.
Proof.
  intros Hi Hw. unfold Spec.window_mean. rewrite window_all by done.
  f_equal. apply (omap_lookup_seqZ trajectory []).
Qed.

Lemma window_mean_zero (trajectory : list CamTrajectory.t) (i : nat)
    (c : CamTrajectory.t) :
  trajectory !! i = Some c →
  Spec.window_mean trajectory 0 i = Spec.mean3 [c].
Proof.
  intros Hc. unfold Spec.window_mean.
  rewrite window_zero by (by eapply lookup_lt_Some). csimpl.
  by rewrite Nat2Z.id, Hc.
Qed.

(** One pass of the outer loop stores the window mean at [i]. *)
Lemma SmoothTrajectory_body (self : t) (trajectory : list CamTrajectory.t)
    (i : nat) :
  (0 ≤ smoothingWindow self < INT_MAX)%Z →
  (Z.of_nat (length trajectory) ≤ INT_MAX)%Z →
  i < length trajectory →
  (js ← window_offsets (smoothingWindow self);
   '(sum_x, sum_y, sum_a, count) ←
     foldlM (SmoothTrajectory_window trajectory i) js (0, 0, 0, 0%Z)%float;
   Some (CamTrajectory (sum_x / double_of_int count)
                       (sum_y / double_of_int count)
                       (sum_a / double_of_int count))%float)
  = Some (Spec.window_mean trajectory (smoothingWindow self) i).
Proof.
  intros Hw Hn Hi. rewrite window_offsets_nonneg by done. csimpl.
  assert (Hlen : length (omap (λ j, trajectory !! Z.to_nat j)
                   (Spec.window (length trajectory) (smoothingWindow self) i))
                 ≤ length trajectory).
  { etrans; [apply length_omap_le|]. unfold Spec.window.
    etrans; [apply length_filter|]. rewrite length_seqZ. lia. }
  rewrite SmoothTrajectory_window_fold; try done.
  - rewrite window_entries by lia. rewrite foldl_add_entry. csimpl.
    by rewrite Z.add_0_l.
  - apply Forall_seqZ. unfold INT_MAX in *. lia.
  - rewrite window_entries by lia. simpl. lia.
Qed.

Lemma SmoothTrajectory_eq (self : t) (trajectory : list CamTrajectory.t) :
  (0 ≤ smoothingWindow self < INT_MAX)%Z →
  (Z.of_nat (length trajectory) ≤ INT_MAX)%Z →
  SmoothTrajectory self trajectory
  = Some (foldl
            (λ m i, <[N.of_nat i :=
                        Spec.window_mean trajectory (smoothingWindow self) i]> m)
            ∅ (seq 0 (length trajectory))).
Proof.
  intros Hw Hn. unfold SmoothTrajectory. apply foldlM_Some.
  intros m i [_ Hi]%elem_of_seq.
  pose proof (SmoothTrajectory_body self trajectory i Hw Hn Hi) as E.
  destruct (window_offsets _) as [js|]; [|done]. cbn in E |- *.
  destruct (foldlM _ js _) as [[[[sum_x sum_y] sum_a] count]|]; [|done].
  cbn in E |- *. congruence.
Qed.

Lemma same_trajectory_mean_one (c : CamTrajectory.t) :
  Spec.same_trajectory (Spec.mean3 [c]) c.
Proof. repeat split; apply mean_of_one. Qed.

(** X23: for a window half-width 0 <= W below INT_MAX (the loop counter
    has to step past W) and a trajectory of n entries (n within int, as
    the count of summed entries is), SmoothTrajectory
    returns a mapping with exactly the keys 0..n-1, whose entry at i is the
    mean, over x, y and the angle, of the trajectory entries at the indices
    of [i-W, i+W] that lie in [0, n-1], divided by the number of entries
    summed. That it returns at all says that no index outside the vector
    was read. With W = 0 every entry has the values of the input entry (as
    doubles compare), and with W >= n every entry is the mean of the whole
    trajectory. *)
Theorem SmoothTrajectory_window_mean (self : t)
    (trajectory : list CamTrajectory.t) :
  (0 ≤ smoothingWindow self < INT_MAX)%Z →
  (Z.of_nat (length trajectory) ≤ INT_MAX)%Z →
  ∃ smoothed : gmap N CamTrajectory.t,
    SmoothTrajectory self trajectory = Some smoothed ∧
    (∀ k : N,
       smoothed !! k
       = if decide (k < N.of_nat (length trajectory))%N
         then Some (Spec.window_mean trajectory (smoothingWindow self)
                      (N.to_nat k))
         else None) ∧
    (smoothingWindow self = 0%Z →
     ∀ (i : nat) (c : CamTrajectory.t),
       trajectory !! i = Some c →
       ∃ c', smoothed !! N.of_nat i = Some c' ∧ Spec.same_trajectory c' c) ∧
    ((Z.of_nat (length trajectory) ≤ smoothingWindow self)%Z →
     ∀ i : nat,
       i < length trajectory →
       smoothed !! N.of_nat i = Some (Spec.mean3 trajectory)).
Proof.
  intros Hw Hn. eexists. split; [by apply SmoothTrajectory_eq|].
  assert (Hlookup : ∀ k : N,
    foldl (λ m i, <[N.of_nat i :=
                      Spec.window_mean trajectory (smoothingWindow self) i]> m)
      (∅ : gmap N CamTrajectory.t) (seq 0 (length trajectory)) !! k
    = if decide (k < N.of_nat (length trajectory))%N
      then Some (Spec.window_mean trajectory (smoothingWindow self)
                   (N.to_nat k))
      else None).
  { intros k. rewrite foldl_insert_lookup.
    destruct (decide (k < N.of_nat (length trajectory))%N).
    - rewrite decide_True; [done|]. apply elem_of_seq. lia.
    - rewrite decide_False; [done|]. rewrite elem_of_seq. lia. }
  split; [exact Hlookup|]. split.
  - intros Hzero i c Hc. exists (Spec.mean3 [c]).
    split; [|apply same_trajectory_mean_one].
    rewrite Hlookup, decide_True by (apply lookup_lt_Some in Hc; lia).
    by rewrite Nat2N.id, Hzero, (window_mean_zero _ _ c).
  - intros Hall i Hi.
    rewrite Hlookup, decide_True by lia.
    by rewrite Nat2N.id, window_mean_all.
Qed.

End Smoothing.

(** ** Iterating a map in key order *)

Lemma iterate_sorted {A : Type} (m : gmap N A) :
  StronglySorted key_le (iterate m).
Proof. apply Sorted_StronglySorted; [apply _|]. apply Sorted_merge_sort, _. Qed.

Lemma iterate_perm {A : Type} (m : gmap N A) : iterate m ≡ₚ map_to_list m.
Proof. apply merge_sort_Permutation. Qed.

Lemma elem_of_iterate {A : Type} (m : gmap N A) (k : N) (v : A) :
  (k, v) ∈ iterate m ↔ m !! k = Some v.
Proof. rewrite iterate_perm. apply elem_of_map_to_list. Qed.

Lemma seq_entries_sorted {A : Type} (g : nat → A) (len : nat) :
  ∀ start, StronglySorted key_le ((λ i, (N.of_nat i, g i)) <$> seq start len).
Proof.
  induction len as [|len IH]; intros start; csimpl; constructor.
  - apply IH.
  - apply Forall_fmap, Forall_seq. intros i Hi. unfold key_le. simpl. lia.
Qed.

(** With the keys [0 .. n-1], iteration visits key [i] at step [i]. *)
Lemma iterate_keys_below {A : Type} `{Inhabited A} (m : gmap N A) (n : nat) :
  Spec.keys_below n m →
  iterate m = (λ i, (N.of_nat i, m !!! N.of_nat i)) <$> seq 0 n.
Proof.
  intros Hkeys. apply (StronglySorted_unique_strong key_le).
  - intros [k1 v1] [k2 v2] H1%elem_of_iterate
      (i & [= -> ->] & Hi%elem_of_seq)%list_elem_of_fmap Hle1 Hle2.
    unfold key_le in *. simpl in *.
    assert (k1 = N.of_nat i) as -> by lia.
    f_equal. by rewrite (lookup_total_correct _ _ _ H1).
  - apply iterate_sorted.
  - apply seq_entries_sorted.
  - rewrite iterate_perm. apply NoDup_Permutation.
    + apply NoDup_map_to_list.
    + apply NoDup_fmap_2; [|apply NoDup_seq]. intros i j [= Hij _]. lia.
    + intros [k v]. rewrite elem_of_map_to_list, list_elem_of_fmap. split.
      * intros Hkv. exists (N.to_nat k). rewrite N2Nat.id.
        split; [by rewrite (lookup_total_correct _ _ _ Hkv)|].
        apply elem_of_seq. pose proof (proj1 (Hkeys k) (mk_is_Some _ _ Hkv)). lia.
      * intros (i & [= -> ->] & Hi%elem_of_seq).
        destruct (proj2 (Hkeys (N.of_nat i))) as [v Hv]; [lia|].
        by rewrite (lookup_total_correct _ _ _ Hv).
Qed.

(** ** Saving and loading *)

Section Store.
Context `{OpenCV} `{Libm} `{DefaultCtor}.

Lemma SaveStabilizedData_loop_spec (f1 : nat → N * CamTrajectory.t)
    (f2 : nat → N * TransformParam.t) (l : list nat) :
  ∀ frames,
    CVStabilization.SaveStabilizedData_loop (f1 <$> l) (f2 <$> l) frames
    = Some (frames ++
            ((λ i, CVStabilization.AddFrameDataToProto
                     (f1 i).2 (f2 i).2 (f1 i).1) <$> l)).
Proof.
  induction l as [|i l IH]; intros frames; csimpl.
  - by rewrite app_nil_r.
  - by rewrite IH, <- app_assoc.
Qed.

Lemma LoadStabilizedData_loop_spec (frames : list Frame.t) :
  ∀ (i0 : N) (tr : gmap N CamTrajectory.t) (tf : gmap N TransformParam.t)
    (k : N),
    let r := CVStabilization.LoadStabilizedData_loop frames i0 tr tf in
    r.1 !! k
    = (if decide (i0 ≤ k)%N
       then from_option (Some ∘ Frame_trajectory) (tr !! k)
              (frames !! N.to_nat (k - i0))
       else tr !! k) ∧
    r.2 !! k
    = (if decide (i0 ≤ k)%N
       then from_option (Some ∘ Frame_transform) (tf !! k)
              (frames !! N.to_nat (k - i0))
       else tf !! k).
Proof.
  induction frames as [|pb frames IH]; intros i0 tr tf k.
  - simpl. by case_decide.
  - cbn [CVStabilization.LoadStabilizedData_loop]. cbv zeta.
    destruct (IH (i0 + 1)%N
                (<[i0 := CamTrajectory (Frame.x pb) (Frame.y pb) (Frame.a pb)]> tr)
                (<[i0 := TransformParam (Frame.dx pb) (Frame.dy pb)
                           (Frame.da pb)]> tf) k) as [-> ->].
    destruct (decide (k = i0)) as [->|Hne].
    + rewrite !(decide_False (P := (i0 + 1 ≤ i0)%N)) by lia.
      rewrite !(decide_True (P := (i0 ≤ i0)%N)) by lia.
      rewrite !lookup_insert_eq.
      replace (N.to_nat (i0 - i0)) with 0 by lia. done.
    + rewrite !lookup_insert_ne by done.
      destruct (decide (i0 ≤ k)%N).
      * rewrite !(decide_True (P := (i0 + 1 ≤ k)%N)) by lia.
        replace (N.to_nat (k - i0)) with (S (N.to_nat (k - (i0 + 1)))) by lia.
        done.
      * rewrite !(decide_False (P := (i0 + 1 ≤ k)%N)) by lia. done.
Qed.

(** The two loops are the same text. *)
Lemma Stabilizer_LoadStabilizedData_loop (frames : list Frame.t) :
  ∀ i0 tr tf,
    Stabilizer.LoadStabilizedData_loop frames i0 tr tf
    = CVStabilization.LoadStabilizedData_loop frames i0 tr tf.
Proof. induction frames as [|pb frames IH]; intros; simpl; [done|apply IH]. Qed.

(** What a load makes of a parsed message: record [i] under key [i]. *)
Lemma LoadStabilizedData_loop_lookup (frames : list Frame.t) (k : N) :
  let r := CVStabilization.LoadStabilizedData_loop frames 0 ∅ ∅ in
  r.1 !! k = Frame_trajectory <$> frames !! N.to_nat k ∧
  r.2 !! k = Frame_transform <$> frames !! N.to_nat k.
Proof.
  cbv zeta.
  destruct (LoadStabilizedData_loop_spec frames 0 ∅ ∅ k) as [-> ->].
  rewrite !decide_True by lia. rewrite N.sub_0_r, !lookup_empty.
  by destruct (frames !! N.to_nat k).
Qed.

Lemma saved_frames_lookup (tr : gmap N CamTrajectory.t)
    (tf : gmap N TransformParam.t) (n : nat) (k : N) :
  Spec.keys_below n tr → Spec.keys_below n tf →
  ((λ i, CVStabilization.AddFrameDataToProto
           (tr !!! N.of_nat i) (tf !!! N.of_nat i) (N.of_nat i))
   <$> seq 0 n) !! N.to_nat k
  = (c ← tr !! k; p ← tf !! k;
     Some (CVStabilization.AddFrameDataToProto c p k)).
Proof.
  intros Htr Htf. rewrite list_lookup_fmap.
  destruct (decide (k < N.of_nat n)%N) as [Hk|Hk].
  - rewrite lookup_seq_lt by lia. simpl. rewrite N2Nat.id.
    destruct (proj2 (Htr k) Hk) as [c Hc]. destruct (proj2 (Htf k) Hk) as [p Hp].
    rewrite Hc, Hp. simpl.
    by rewrite (lookup_total_correct _ _ _ Hc), (lookup_total_correct _ _ _ Hp).
  - rewrite lookup_seq_ge by lia. simpl.
    destruct (tr !! k) as [c|] eqn:Hc; [|done].
    destruct Hk. apply Htr. by eexists.
Qed.

(** Saving maps with the keys [0 .. n-1] and loading the written file: the
    maps come back with every component narrowed to single precision. *)
Lemma save_load_maps (tr : gmap N CamTrajectory.t)
    (tf : gmap N TransformParam.t) (n : nat) :
  Spec.keys_below n tr → Spec.keys_below n tf →
  ∃ frames,
    CVStabilization.SaveStabilizedData_loop (iterate tr) (iterate tf) []
    = Some frames ∧
    CVStabilization.LoadStabilizedData_loop frames 0 ∅ ∅
    = (Spec.narrow_trajectory <$> tr, Spec.narrow_transform <$> tf).
Proof.
  intros Htr Htf.
  rewrite (iterate_keys_below tr n), (iterate_keys_below tf n) by done.
  rewrite SaveStabilizedData_loop_spec. eexists. split; [done|].
  cbn [app fst snd].
  match goal with |- ?r = _ => apply (injective_projections r) end;
    apply map_eq; intros k; cbn [fst snd];
    [ rewrite (proj1 (LoadStabilizedData_loop_lookup _ k))
    | rewrite (proj2 (LoadStabilizedData_loop_lookup _ k)) ];
    rewrite saved_frames_lookup, lookup_fmap by done.
  - destruct (tr !! k) as [c|] eqn:Hc; [|done].
    destruct (proj2 (Htf k) (proj1 (Htr k) (mk_is_Some _ _ Hc))) as [p ->].
    done.
  - destruct (tf !! k) as [p|] eqn:Hp.
    + destruct (proj2 (Htr k) (proj1 (Htf k) (mk_is_Some _ _ Hp))) as [c ->].
      done.
    + by destruct (tr !! k).
Qed.

(** X24: when the smoothed-trajectory mapping and the corrective-transform
    mapping have the same keys 0..n-1 and the path can be written,
    SaveStabilizedData succeeds, and LoadStabilizedData on the written
    file, in the analysis class and in the effect alike, succeeds and
    leaves both mappings with the saved keys and every stored component
    narrowed to single precision. *)
Theorem save_then_load (self other : CVStabilization.t) (effect : Stabilizer.t)
    (path : string) (now : Z) (fs : filesystem.t) (n : nat) :
  Spec.keys_below n (CVStabilization.trajectoryData self) →
  Spec.keys_below n (CVStabilization.transformationData self) →
  filesystem.writable fs path = true →
  ∃ fs',
    CVStabilization.SaveStabilizedData self path now fs = Some (true, fs') ∧
    (let r := CVStabilization.LoadStabilizedData other path fs' in
     r.1 = true ∧
     CVStabilization.trajectoryData r.2
     = Spec.narrow_trajectory <$> CVStabilization.trajectoryData self ∧
     CVStabilization.transformationData r.2
     = Spec.narrow_transform <$> CVStabilization.transformationData self) ∧
    (let r := Stabilizer.LoadStabilizedData effect path fs' in
     r.1 = true ∧
     Stabilizer.trajectoryData r.2
     = Spec.narrow_trajectory <$> CVStabilization.trajectoryData self ∧
     Stabilizer.transformationData r.2
     = Spec.narrow_transform <$> CVStabilization.transformationData self).
Proof.
  intros Htr Htf Hw.
  destruct (save_load_maps _ _ n Htr Htf) as (frames & Hsave & Hload).
  pose proof (Stabilizer_LoadStabilizedData_loop frames 0 ∅ ∅) as Hload'.
  rewrite Hload in Hload'.
  unfold CVStabilization.SaveStabilizedData. rewrite Hsave. csimpl.
  unfold SerializeToOstream. rewrite Hw. eexists. split; [done|].
  unfold CVStabilization.LoadStabilizedData, Stabilizer.LoadStabilizedData,
    ParseFromIstream.
  cbn [filesystem.files]. rewrite lookup_insert_eq. csimpl.
  rewrite Hload, Hload'. done.
Qed.

(** C6: LoadStabilizedData, in the analysis class and in the effect,
    returns false exactly when the file cannot be opened or is rejected by
    the parser, and a call that returns false leaves the object, and so
    both of its mappings, as it was before the call. The functions are
    total: there is no other way out of a call. *)
Theorem LoadStabilizedData_failure (self : CVStabilization.t)
    (effect : Stabilizer.t) (path : string) (fs : filesystem.t) :
  let r := CVStabilization.LoadStabilizedData self path fs in
  let r' := Stabilizer.LoadStabilizedData effect path fs in
  let unreadable :=
    filesystem.files fs !! path = None ∨
    filesystem.files fs !! path = Some None in
  (r.1 = false ↔ unreadable) ∧
  (r.1 = false → r.2 = self) ∧
  (r'.1 = false ↔ unreadable) ∧
  (r'.1 = false → r'.2 = effect).
Proof.
  cbv zeta.
  unfold CVStabilization.LoadStabilizedData, Stabilizer.LoadStabilizedData,
    ParseFromIstream.
  destruct (filesystem.files fs !! path) as [[msg|]|]; csimpl.
  - destruct (CVStabilization.LoadStabilizedData_loop _ _ _ _).
    destruct (Stabilizer.LoadStabilizedData_loop _ _ _ _).
    simpl. repeat split; try done; intros [?|?]; done.
  - repeat split; auto.
  - repeat split; auto.
Qed.

End Store.

(** ** The store on concrete files *)

Section StoreExamples.
Import Examples.
#[local] Existing Instance Doubles.opencv.

Lemma analysed_keys :
  Spec.keys_below 2 (CVStabilization.trajectoryData analysed) ∧
  Spec.keys_below 2 (CVStabilization.transformationData analysed).
Proof.
  split; intros k; unfold analysed; cbn [CVStabilization.trajectoryData
    CVStabilization.transformationData].
  all: destruct (decide (k = 0%N)) as [->|];
    [|destruct (decide (k = 1%N)) as [->|]].
  all: try (split; [intros _; lia | intros _; by eexists]).
  all: rewrite lookup_insert_ne, lookup_singleton_ne by done.
  all: split; [by intros [? ?] | lia].
Qed.

Lemma save_then_load_witness :
  ∃ fs',
    CVStabilization.SaveStabilizedData analysed path 0 disk = Some (true, fs') ∧
    (let r := CVStabilization.LoadStabilizedData (CVStabilization.new 30)
                path fs' in
     r.1 = true ∧
     CVStabilization.trajectoryData r.2
     = Spec.narrow_trajectory <$> CVStabilization.trajectoryData analysed ∧
     CVStabilization.transformationData r.2
     = Spec.narrow_transform <$> CVStabilization.transformationData analysed) ∧
    (let r := Stabilizer.LoadStabilizedData Stabilizer.new path fs' in
     r.1 = true ∧
     Stabilizer.trajectoryData r.2
     = Spec.narrow_trajectory <$> CVStabilization.trajectoryData analysed ∧
     Stabilizer.transformationData r.2
     = Spec.narrow_transform <$> CVStabilization.transformationData analysed).
Proof.
  apply (save_then_load analysed (CVStabilization.new 30) Stabilizer.new
           path 0 disk 2);
    [apply analysed_keys | apply analysed_keys | reflexivity].
Defined.

(** C4, at the failing input: the two maps of [gapped] share their keys,
    0 and 7. The save writes two records, with the ids 0 and 7. The load,
    in the analysis class and in the effect, stores the second record at
    key 1, its position in the file: the entries saved at key 7 come back
    at key 1 and key 7 is gone. Every stored number is a single-precision
    value, so rounding plays no part. *)
Theorem save_then_load_loses_keys :
  let r := CVStabilization.LoadStabilizedData (CVStabilization.new 30)
             path gapped_disk in
  let e := Stabilizer.LoadStabilizedData Stabilizer.new path gapped_disk in
  (CVStabilization.trajectoryData gapped !! 7%N = Some (CamTrajectory 4 5 6) ∧
   CVStabilization.transformationData gapped !! 7%N
   = Some (TransformParam 10 11 12) ∧
   CVStabilization.trajectoryData gapped !! 1%N = None ∧
   CVStabilization.transformationData gapped !! 1%N = None) ∧
  (CVStabilization.SaveStabilizedData gapped path 0 disk
   = Some (true, gapped_disk) ∧
   ParseFromIstream gapped_disk path
   = Some (Stabilization.mk
             [Frame.mk 0 1 2 3 7 8 9; Frame.mk 7 4 5 6 10 11 12]
             (Some 0%Z))) ∧
  (r.1 = true ∧
   CVStabilization.trajectoryData r.2 !! 7%N = None ∧
   CVStabilization.transformationData r.2 !! 7%N = None ∧
   CVStabilization.trajectoryData r.2 !! 1%N = Some (CamTrajectory 4 5 6) ∧
   CVStabilization.transformationData r.2 !! 1%N
   = Some (TransformParam 10 11 12)) ∧
  (e.1 = true ∧
   Stabilizer.trajectoryData e.2 !! 7%N = None ∧
   Stabilizer.transformationData e.2 !! 7%N = None ∧
   Stabilizer.trajectoryData e.2 !! 1%N = Some (CamTrajectory 4 5 6) ∧
   Stabilizer.transformationData e.2 !! 1%N = Some (TransformParam 10 11 12)).
Proof. cbv zeta. repeat split; vm_compute; reflexivity. Qed.

(** C5, at the failing input: the file holds the record with id 1 first
    and the record with id 0 second. Both loaders store the first record
    under key 0 and the second under key 1, whatever their ids, so the
    same two records in the other order give other maps. *)
Theorem LoadStabilizedData_keys_by_position :
  let r := CVStabilization.LoadStabilizedData (CVStabilization.new 30)
             path disk_swapped in
  let e := Stabilizer.LoadStabilizedData Stabilizer.new path disk_swapped in
  let r' := CVStabilization.LoadStabilizedData (CVStabilization.new 30)
              path disk_in_order in
  (Frame.id record1 = 1%N ∧ Frame.id record0 = 0%N) ∧
  (r.1 = true ∧
   CVStabilization.trajectoryData r.2 !! 0%N = Some (Frame_trajectory record1) ∧
   CVStabilization.trajectoryData r.2 !! 1%N = Some (Frame_trajectory record0) ∧
   CVStabilization.transformationData r.2 !! 0%N
   = Some (Frame_transform record1) ∧
   CVStabilization.transformationData r.2 !! 1%N
   = Some (Frame_transform record0)) ∧
  (e.1 = true ∧
   Stabilizer.trajectoryData e.2 !! 0%N = Some (Frame_trajectory record1) ∧
   Stabilizer.trajectoryData e.2 !! 1%N = Some (Frame_trajectory record0) ∧
   Stabilizer.transformationData e.2 !! 0%N = Some (Frame_transform record1) ∧
   Stabilizer.transformationData e.2 !! 1%N = Some (Frame_transform record0)) ∧
  (CVStabilization.trajectoryData r'.2 !! 0%N = Some (Frame_trajectory record0) ∧
   CVStabilization.trajectoryData r'.2 !! 1%N = Some (Frame_trajectory record1)).
Proof. cbv zeta. repeat split; vm_compute; reflexivity. Qed.

Lemma LoadStabilizedData_failure_witness :
  let r := CVStabilization.LoadStabilizedData analysed path disk in
  let r' := Stabilizer.LoadStabilizedData Stabilizer.new path disk in
  filesystem.files disk !! path = None ∧
  (r.1 = false ∧ r.2 = analysed) ∧
  (r'.1 = false ∧ r'.2 = Stabilizer.new).
Proof.
  cbv zeta.
  destruct (LoadStabilizedData_failure analysed Stabilizer.new path disk)
    as (Hr & Hself & Hr' & Heffect).
  assert (Hmissing : filesystem.files disk !! path = None) by reflexivity.
  split; [exact Hmissing|]. split.
  - split; [|apply Hself]; apply Hr; left; exact Hmissing.
  - split; [|apply Heffect]; apply Hr'; left; exact Hmissing.
Defined.

(** A missing file and a garbled file: both loads fail and change
    nothing. *)
Example LoadStabilizedData_missing_or_garbled :
  CVStabilization.LoadStabilizedData analysed path disk = (false, analysed) ∧
  CVStabilization.LoadStabilizedData analysed path disk_garbled
  = (false, analysed).
Proof. split; reflexivity. Qed.

End StoreExamples.

(** ** Rendering *)

Section Rendering.
Context `{OpenCV} `{Libm} `{DefaultCtor}.

(** The six reads of [transformationData[frame_number]] come to one. *)
Lemma GetFrame_eq (self : Stabilizer.t) (frame : image) (frame_number : Z) :
  let k := size_t_of_int64 frame_number in
  let r := subscript TransformParam_default
             (Stabilizer.transformationData self) k in
  Stabilizer.GetFrame self frame frame_number
  = (warp_with r.1 frame, Stabilizer.mk r.2 (Stabilizer.trajectoryData self)).
Proof.
  cbv zeta. unfold Stabilizer.GetFrame.
  destruct (subscript TransformParam_default
              (Stabilizer.transformationData self)
              (size_t_of_int64 frame_number)) as [e td] eqn:E.
  assert (E' : subscript TransformParam_default td
                 (size_t_of_int64 frame_number) = (e, td)).
  { pose proof (subscript_again TransformParam_default
                  (Stabilizer.transformationData self)
                  (size_t_of_int64 frame_number)) as E'.
    by rewrite E in E'. }
  rewrite !E'. reflexivity.
Qed.

(** C10 (as amended): GetFrame leaves the corrective-transform mapping as
    it was when the requested index is one of its keys; when the index is
    absent it adds one entry, the default-constructed transform, at that
    index. In both cases every other key keeps its entry, and the
    trajectory mapping is untouched. *)
Theorem GetFrame_transformationData (self : Stabilizer.t) (frame : image)
    (frame_number : Z) :
  let k := size_t_of_int64 frame_number in
  let before := Stabilizer.transformationData self in
  let after :=
    Stabilizer.transformationData
      (Stabilizer.GetFrame self frame frame_number).2 in
  after = match before !! k with
          | Some _ => before
          | None => <[k := TransformParam_default k]> before
          end ∧
  (∀ k', k' ≠ k → after !! k' = before !! k') ∧
  Stabilizer.trajectoryData (Stabilizer.GetFrame self frame frame_number).2
  = Stabilizer.trajectoryData self.
Proof.
  cbv zeta. rewrite GetFrame_eq. cbn [snd Stabilizer.transformationData
    Stabilizer.trajectoryData].
  split; [apply subscript_map|]. split; [|done].
  intros k' Hne. by apply subscript_lookup_ne.
Qed.

Lemma GenNewCamPosition_loop_smoothed (rest : list TransformParam.t) :
  ∀ (i0 : N) (x y a : double) (sm : gmap N CamTrajectory.t)
    (acc : gmap N TransformParam.t) (k : N),
    (CVStabilization.GenNewCamPosition_loop rest i0 x y a sm acc).2 !! k
    = if decide (i0 ≤ k < i0 + N.of_nat (length rest))%N
      then Some (default (CamTrajectory_default k) (sm !! k))
      else sm !! k.
Proof.
  induction rest as [|p rest IH]; intros i0 x y a sm acc k.
  - simpl. rewrite decide_False by lia. done.
  - cbn [CVStabilization.GenNewCamPosition_loop].
    destruct (subscript CamTrajectory_default sm i0) as [s1 sm1] eqn:E1.
    assert (E2 : subscript CamTrajectory_default sm1 i0 = (s1, sm1)).
    { pose proof (subscript_again CamTrajectory_default sm i0) as E.
      by rewrite E1 in E. }
    rewrite !E2, IH. cbn [length].
    assert (Hsm1 : sm1 = (subscript CamTrajectory_default sm i0).2)
      by (by rewrite E1).
    destruct (decide (k = i0)) as [->|Hne].
    + rewrite decide_False, decide_True by lia.
      rewrite Hsm1, subscript_map.
      destruct (sm !! i0) as [c|] eqn:Ec; simpl.
      * by rewrite Ec.
      * by rewrite lookup_insert_eq.
    + rewrite Hsm1, subscript_lookup_ne by done.
      destruct (decide (i0 ≤ k < i0 + N.of_nat (S (length rest)))%N).
      * rewrite decide_True by lia. done.
      * rewrite decide_False by lia. done.
Qed.

(** C7 (as amended): neither function fails on a missing index. For a
    frame index absent from the corrective-transform mapping, GetFrame
    returns the frame warped with the default-constructed transform that
    [operator[]] puts at that index. For a raw-delta index with no smoothed
    entry, GenNewCamPosition computes the corrective transform from the
    default-constructed entry that [operator[]] puts into the smoothed
    mapping. *)
Theorem missing_index_gets_default (effect : Stabilizer.t) (frame : image)
    (frame_number : Z) (self : CVStabilization.t)
    (smoothed_trajectory : gmap N CamTrajectory.t) (i : nat)
    (p : TransformParam.t) :
  Stabilizer.transformationData effect !! size_t_of_int64 frame_number = None →
  CVStabilization.prev_to_cur_transform self !! i = Some p →
  smoothed_trajectory !! N.of_nat i = None →
  (let k := size_t_of_int64 frame_number in
   Stabilizer.GetFrame effect frame frame_number
   = (warp_with (TransformParam_default k) frame,
      Stabilizer.mk
        (<[k := TransformParam_default k]>
           (Stabilizer.transformationData effect))
        (Stabilizer.trajectoryData effect))) ∧
  (let r := CVStabilization.GenNewCamPosition self smoothed_trajectory in
   let d := CamTrajectory_default (N.of_nat i) in
   let c := Spec.CameraTrajectory
              (CVStabilization.prev_to_cur_transform self) i in
   r.1 !! N.of_nat i
   = Some (TransformParam
       (TransformParam.dx p + (CamTrajectory.x d - CamTrajectory.x c))
       (TransformParam.dy p + (CamTrajectory.y d - CamTrajectory.y c))
       (TransformParam.da p + (CamTrajectory.a d - CamTrajectory.a c)))%float ∧
   r.2 !! N.of_nat i = Some d).
Proof.
  intros Habsent Hp Hs. cbv zeta. split.
  - rewrite GetFrame_eq. cbv zeta. unfold subscript. by rewrite Habsent.
  - split.
    + rewrite GenNewCamPosition_lookup, ComputeFramesTrajectory_lookup, Hp.
      simpl. by rewrite subscript_value, Hs.
    + unfold CVStabilization.GenNewCamPosition.
      rewrite GenNewCamPosition_loop_smoothed.
      apply lookup_lt_Some in Hp.
      rewrite decide_True by lia. by rewrite Hs.
Qed.

End Rendering.

(** ** Construction and the window *)

Section Construction.
Context `{OpenCV} `{Libm} `{DefaultCtor}.
Import CVStabilization.

Lemma SmoothTrajectory_negative (self : t) (trajectory : list CamTrajectory.t) :
  (INT_MIN < smoothingWindow self < 0)%Z →
  SmoothTrajectory self trajectory
  = Some (foldl (λ m i, <[N.of_nat i := CamTrajectory nan nan nan]> m)
            ∅ (seq 0 (length trajectory))).
Proof.
  intros Hw. unfold SmoothTrajectory. apply foldlM_Some.
  intros m i _. by rewrite window_offsets_neg.
Qed.

(** C9 (as amended): construction takes every window value, a negative one
    included, and stores it as given; nothing rejects it afterwards either.
    With a negative window (above INT_MIN) SmoothTrajectory still returns a
    mapping with the keys 0..n-1: its inner loop is never entered, the
    count stays 0, and every component of every entry is 0/0, a NaN. *)
Theorem new_stores_any_window (w : Z) (trajectory : list CamTrajectory.t) :
  smoothingWindow (new w) = w ∧
  ((INT_MIN < w < 0)%Z →
   ∃ smoothed : gmap N CamTrajectory.t,
     SmoothTrajectory (new w) trajectory = Some smoothed ∧
     ∀ k : N,
       smoothed !! k
       = if decide (k < N.of_nat (length trajectory))%N
         then Some (CamTrajectory nan nan nan)
         else None).
Proof.
  split; [done|]. intros Hw. eexists.
  split; [by apply SmoothTrajectory_negative|].
  intros k. rewrite foldl_insert_lookup, lookup_empty.
  destruct (decide (k < N.of_nat (length trajectory))%N).
  - rewrite decide_True; [done|]. apply elem_of_seq. lia.
  - rewrite decide_False; [done|]. rewrite elem_of_seq. lia.
Qed.

End Construction.

(** ** Tracking *)

Section Tracking.
Context `{OpenCV} `{Libm} `{DefaultCtor}.
Import CVStabilization.

Lemma TrackFrameFeatures_first (self : t) (frame : image) (frameNum : Z) :
  prev_grey self = None →
  TrackFrameFeatures self frame frameNum
  = Some (mk (last_T self) frame (prev_to_cur_transform self)
             (smoothingWindow self) (trajectoryData self)
             (transformationData self)).
Proof. intros E. unfold TrackFrameFeatures. by rewrite E. Qed.

(** After the first frame: the outcome of a call, by what the estimator
    returns and what [last_T] holds. *)
Lemma TrackFrameFeatures_next (self : t) (frame : image) (frameNum : Z)
    (prev_corner2 cur_corner2 : list Point2f) :
  is_Some (prev_grey self) →
  tracked_corners (prev_grey self) frame = Some (prev_corner2, cur_corner2) →
  TrackFrameFeatures self frame frameNum
  = (M ← match estimateRigidTransform prev_corner2 cur_corner2 with
         | None => last_T self
         | Some M => Some M
         end;
     Some (mk (Some M) frame (prev_to_cur_transform self ++ [decompose M])
              (smoothingWindow self) (trajectoryData self)
              (transformationData self))).
Proof.
  intros [img Himg] Hc. unfold TrackFrameFeatures, tracked_corners in *.
  rewrite Himg in *.
  destruct (calcOpticalFlowPyrLK (Some img) frame _) as [cur_corner status].
  rewrite Hc. csimpl.
  destruct (estimateRigidTransform prev_corner2 cur_corner2) as [M|]; [done|].
  by destruct (last_T self).
Qed.

(** The estimator fails and an earlier transform is there: it is used
    again, and its delta is appended. *)
Lemma TrackFrameFeatures_reuse (self : t) (frame : image) (frameNum : Z)
    (prev_corner2 cur_corner2 : list Point2f) (M : Mat2x3.t) :
  is_Some (prev_grey self) →
  tracked_corners (prev_grey self) frame = Some (prev_corner2, cur_corner2) →
  estimateRigidTransform prev_corner2 cur_corner2 = None →
  last_T self = Some M →
  TrackFrameFeatures self frame frameNum
  = Some (mk (Some M) frame (prev_to_cur_transform self ++ [decompose M])
             (smoothingWindow self) (trajectoryData self)
             (transformationData self)).
Proof.
  intros Hp Hc He Hl. rewrite (TrackFrameFeatures_next _ _ _ _ _ Hp Hc).
  by rewrite He, Hl.
Qed.

(** The estimator fails and no transform was estimated before: the call
    reads an empty matrix. *)
Lemma TrackFrameFeatures_nothing_to_reuse (self : t) (frame : image)
    (frameNum : Z) (prev_corner2 cur_corner2 : list Point2f) :
  is_Some (prev_grey self) →
  tracked_corners (prev_grey self) frame = Some (prev_corner2, cur_corner2) →
  estimateRigidTransform prev_corner2 cur_corner2 = None →
  last_T self = None →
  TrackFrameFeatures self frame frameNum = None.
Proof.
  intros Hp Hc He Hl. rewrite (TrackFrameFeatures_next _ _ _ _ _ Hp Hc).
  by rewrite He, Hl.
Qed.

End Tracking.

(** ** The claims on concrete inputs *)

Section Evaluation.
Import Examples.
#[local] Existing Instance Doubles.opencv.
#[local] Existing Instance Doubles.libm.
#[local] Existing Instance Doubles.ctor.

Lemma SmoothTrajectory_window_mean_witness :
  ∃ smoothed : gmap N CamTrajectory.t,
    CVStabilization.SmoothTrajectory window1 trajectory = Some smoothed ∧
    (∀ k : N,
       smoothed !! k
       = if decide (k < N.of_nat (length trajectory))%N
         then Some (Spec.window_mean trajectory
                      (CVStabilization.smoothingWindow window1) (N.to_nat k))
         else None) ∧
    (CVStabilization.smoothingWindow window1 = 0%Z →
     ∀ (i : nat) (c : CamTrajectory.t),
       trajectory !! i = Some c →
       ∃ c', smoothed !! N.of_nat i = Some c' ∧ Spec.same_trajectory c' c) ∧
    ((Z.of_nat (length trajectory) ≤ CVStabilization.smoothingWindow window1)%Z →
     ∀ i : nat,
       i < length trajectory →
       smoothed !! N.of_nat i = Some (Spec.mean3 trajectory)).
Proof.
  apply (SmoothTrajectory_window_mean window1 trajectory);
    unfold INT_MAX; simpl; lia.
Defined.

(** C3, at the failing input: the window INT_MAX, a valid half-width, and
    a trajectory of one entry. The loop [for(int j = -W; j <= W; j++)]
    cannot end there: [j <= W] holds for every int j, and after the pass at
    j = INT_MAX the increment leaves [int]. The call has no defined result
    and produces no mapping. One below, with the window INT_MAX - 1, the
    call returns what the claim says for a window wider than the
    trajectory: the mean of the whole trajectory, here the entry itself,
    at key 0. *)
Theorem SmoothTrajectory_INT_MAX_no_result :
  int_incr INT_MAX = None ∧
  CVStabilization.window_offsets INT_MAX = None ∧
  CVStabilization.SmoothTrajectory (CVStabilization.new INT_MAX)
    [CamTrajectory 1 2 3]
  = None ∧
  CVStabilization.SmoothTrajectory (CVStabilization.new (INT_MAX - 1))
    [CamTrajectory 1 2 3]
  = Some {[ 0%N := CamTrajectory 1 2 3 ]}.
Proof.
  split; [reflexivity|]. split; [reflexivity|]. split; [reflexivity|].
  rewrite SmoothTrajectory_eq by (unfold INT_MAX; simpl; lia).
  cbn [length seq foldl].
  rewrite window_mean_all by (unfold INT_MAX; simpl; lia).
  vm_compute. reflexivity.
Qed.

(** The scenario of the specification: deltas (1,0,0), (1,0,0), (-1,0,0),
    (1,0,0) and window 1 give the trajectory 1, 2, 1, 2 in x, the smoothed
    entry 4/3 at index 1 and the corrective dx 1 + (4/3 - 2) there. *)
Example specification_scenario :
  CVStabilization.ComputeFramesTrajectory window1 = trajectory ∧
  (λ m : gmap N CamTrajectory.t, m !! 1%N)
    <$> CVStabilization.SmoothTrajectory window1 trajectory
  = Some (Some (CamTrajectory (4 / 3) 0 0)) ∧
  (λ m : gmap N CamTrajectory.t,
     (CVStabilization.GenNewCamPosition window1 m).1 !! 1%N)
    <$> CVStabilization.SmoothTrajectory window1 trajectory
  = Some (Some (TransformParam (1 + (4 / 3 - 2)) 0 0)).
Proof. repeat split; vm_compute; reflexivity. Qed.

(** The accumulated angle is not wrapped: four turns of 2 radians add up
    to 8, beyond a full circle. *)
Example angle_is_not_wrapped :
  CVStabilization.ComputeFramesTrajectory
    (CVStabilization.mk None None
       [TransformParam 0 0 2; TransformParam 0 0 2; TransformParam 0 0 2;
        TransformParam 0 0 2] 30 ∅ ∅)
  = [CamTrajectory 0 0 2; CamTrajectory 0 0 4; CamTrajectory 0 0 6;
     CamTrajectory 0 0 8].
Proof. reflexivity. Qed.

(** C10, against the claim as it was stated: on an effect that has loaded
    nothing, rendering frame 3 leaves an entry at key 3 in the mapping
    that was empty before the call. *)
Lemma GetFrame_adds_missing_key :
  Stabilizer.transformationData Stabilizer.new = ∅ ∧
  Stabilizer.transformationData (Stabilizer.GetFrame Stabilizer.new textured 3).2
  = {[ 3%N := TransformParam_default 3%N ]}.
Proof. split; reflexivity. Qed.

Lemma GetFrame_transformationData_witness :
  let loaded :=
    Stabilizer.mk {[ 3%N := TransformParam 5 0 0 ]}
                  {[ 3%N := CamTrajectory 1 0 0 ]} in
  Stabilizer.transformationData (Stabilizer.GetFrame loaded textured 3).2
  = Stabilizer.transformationData loaded ∧
  Stabilizer.transformationData (Stabilizer.GetFrame loaded textured 4).2 !! 3%N
  = Stabilizer.transformationData loaded !! 3%N ∧
  Stabilizer.trajectoryData (Stabilizer.GetFrame loaded textured 3).2
  = Stabilizer.trajectoryData loaded.
Proof.
  cbv zeta.
  set (loaded := Stabilizer.mk {[ 3%N := TransformParam 5 0 0 ]}
                   {[ 3%N := CamTrajectory 1 0 0 ]}).
  destruct (GetFrame_transformationData loaded textured 3) as (Hsame & _ & Htraj).
  destruct (GetFrame_transformationData loaded textured 4) as (_ & Hother & _).
  split; [exact Hsame|]. split; [|exact Htraj].
  apply Hother. discriminate.
Defined.

(** C7, against the claim as it was stated: with nothing loaded, the
    render of frame 3 returns, and what it returns is the frame warped with
    the default-constructed transform; and GenNewCamPosition, given a raw
    delta and no smoothed entry at all, returns a corrective transform
    computed from the default-constructed smoothed entry (here zeros, so
    dx = 1 + (0 - 1)). *)
Lemma missing_index_is_not_reported :
  Stabilizer.GetFrame Stabilizer.new textured 3
  = (warp_with (TransformParam_default 3%N) textured,
     Stabilizer.mk {[ 3%N := TransformParam_default 3%N ]} ∅) ∧
  CVStabilization.GenNewCamPosition
    (CVStabilization.mk None None [TransformParam 1 0 0] 30 ∅ ∅) ∅
  = ({[ 0%N := TransformParam (1 + (0 - 1)) 0 0 ]},
     {[ 0%N := CamTrajectory_default 0%N ]}).
Proof. split; vm_compute; reflexivity. Qed.

Lemma missing_index_gets_default_witness :
  (let k := size_t_of_int64 3 in
   Stabilizer.GetFrame Stabilizer.new textured 3
   = (warp_with (TransformParam_default k) textured,
      Stabilizer.mk
        (<[k := TransformParam_default k]>
           (Stabilizer.transformationData Stabilizer.new))
        (Stabilizer.trajectoryData Stabilizer.new))) ∧
  (let r := CVStabilization.GenNewCamPosition window1 ∅ in
   let d := CamTrajectory_default (N.of_nat 1) in
   let c := Spec.CameraTrajectory
              (CVStabilization.prev_to_cur_transform window1) 1 in
   let p := TransformParam 1 0 0 in
   r.1 !! N.of_nat 1
   = Some (TransformParam
       (TransformParam.dx p + (CamTrajectory.x d - CamTrajectory.x c))
       (TransformParam.dy p + (CamTrajectory.y d - CamTrajectory.y c))
       (TransformParam.da p + (CamTrajectory.a d - CamTrajectory.a c)))%float ∧
   r.2 !! N.of_nat 1 = Some d).
Proof.
  apply (missing_index_gets_default Stabilizer.new textured 3 window1 ∅ 1
           (TransformParam 1 0 0)); reflexivity.
Defined.

(** C9, against the claim as it was stated: an object is constructed with
    the window -1, and the pipeline runs with it over a three-frame clip;
    every smoothed entry and every corrective transform it produces is
    NaN. *)
Lemma negative_window_is_accepted :
  CVStabilization.smoothingWindow (CVStabilization.new (-1)) = (-1)%Z ∧
  (λ self : CVStabilization.t,
     (CVStabilization.smoothingWindow self,
      iterate (CVStabilization.trajectoryData self),
      iterate (CVStabilization.transformationData self)))
    <$> CVStabilization.ProcessClip (CVStabilization.new (-1)) panning
  = Some ((-1)%Z,
          [(0%N, CamTrajectory nan nan nan); (1%N, CamTrajectory nan nan nan)],
          [(0%N, TransformParam nan nan nan);
           (1%N, TransformParam nan nan nan)]).
Proof. split; vm_compute; reflexivity. Qed.

Lemma new_stores_any_window_witness :
  CVStabilization.smoothingWindow (CVStabilization.new (-1)) = (-1)%Z ∧
  ∃ smoothed : gmap N CamTrajectory.t,
    CVStabilization.SmoothTrajectory (CVStabilization.new (-1)) trajectory
    = Some smoothed ∧
    ∀ k : N,
      smoothed !! k
      = if decide (k < N.of_nat (length trajectory))%N
        then Some (CamTrajectory nan nan nan)
        else None.
Proof.
  destruct (new_stores_any_window (-1) trajectory) as [Hstored Hsmooth].
  split; [exact Hstored|]. apply Hsmooth. unfold INT_MIN. lia.
Defined.

(** C8, at the failing input: two frames with a single trackable point, so
    that the estimator finds no transform for the first pair. The first
    call keeps the frame; at the second call [last_T] is still empty, there
    is nothing to reuse, and the call reads the entries of an empty matrix:
    it has no result and appends no delta. With a transform from an earlier
    pair in [last_T], the same second call reuses it and appends its
    delta. *)
Theorem TrackFrameFeatures_first_pair_fails :
  let first := CVStabilization.mk None sparse [] 30 ∅ ∅ in
  let M := Mat2x3.mk 1 0 5 0 1 0 in
  CVStabilization.TrackFrameFeatures (CVStabilization.new 30) sparse 0
  = Some first ∧
  tracked_corners sparse sparse = Some ([(1, 1)], [(1, 1)])%float ∧
  estimateRigidTransform [(1, 1)%float] [(1, 1)%float] = None ∧
  CVStabilization.TrackFrameFeatures first sparse 1 = None ∧
  CVStabilization.TrackFrameFeatures
    (CVStabilization.mk (Some M) sparse [] 30 ∅ ∅) sparse 1
  = Some (CVStabilization.mk (Some M) sparse [decompose M] 30 ∅ ∅).
Proof. cbv zeta. repeat split; vm_compute; reflexivity. Qed.

End Evaluation.

(** ** Tracking over a clip *)

Section TrackingLaws.
Context `{OpenCV} `{Libm} `{DefaultCtor}.
Import CVStabilization.

Lemma remove_untracked_from (status : list bool)
    (prev_corner cur_corner : list Point2f) :
  length status ≤ length prev_corner →
  length status ≤ length cur_corner →
  ∀ (n start : nat) (p2 c2 : list Point2f),
    start + n = length status →
    foldlM
      (λ '(prev_corner2, cur_corner2) i,
         s ← status !! i;
         if s : bool then
           p ← prev_corner !! i;
           c ← cur_corner !! i;
           Some (prev_corner2 ++ [p], cur_corner2 ++ [c])
         else Some (prev_corner2, cur_corner2))
      (seq start n) (p2, c2)
    = Some (p2 ++ tracked (drop start status) (drop start prev_corner),
            c2 ++ tracked (drop start status) (drop start cur_corner)).
Proof.
  intros Hp Hc n. induction n as [|n IH]; intros start p2 c2 Hn.
  - simpl. rewrite (drop_ge status) by lia. simpl. by rewrite !app_nil_r.
  - destruct (lookup_lt_is_Some_2 status start) as [s Es]; [lia|].
    destruct (lookup_lt_is_Some_2 prev_corner start) as [p Ep]; [lia|].
    destruct (lookup_lt_is_Some_2 cur_corner start) as [c Ec]; [lia|].
    rewrite (drop_S _ _ _ Es), (drop_S _ _ _ Ep), (drop_S _ _ _ Ec).
    cbn [seq foldlM]. rewrite Es, Ep, Ec. csimpl.
    destruct s; csimpl; rewrite IH by lia; [|done].
    by rewrite <- !app_assoc.
Qed.

Lemma length_tracked {A : Type} (status : list bool) :
  ∀ corners : list A,
    length status ≤ length corners →
    length (tracked status corners) = length (filter (λ s, s = true) status).
Proof.
  induction status as [|s status IH]; intros [|c corners] Hlen;
    simpl in *; try done; try lia.
  destruct s.
  - rewrite filter_cons_True by done. simpl. rewrite IH by lia. done.
  - rewrite filter_cons_False by done. apply IH. lia.
Qed.

(** X1: when the status vector is no longer than the two corner vectors,
    the loop "Remove untracked features" returns the corners whose status
    is set, in their order, and as many previous corners as current
    ones. *)
Theorem remove_untracked_tracked (status : list bool)
    (prev_corner cur_corner : list Point2f) :
  length status ≤ length prev_corner →
  length status ≤ length cur_corner →
  remove_untracked status prev_corner cur_corner
  = Some (tracked status prev_corner, tracked status cur_corner) ∧
  length (tracked status prev_corner) = length (tracked status cur_corner).
Proof.
  intros Hp Hc. split.
  - unfold remove_untracked.
    by rewrite (remove_untracked_from status prev_corner cur_corner Hp Hc
                  (length status) 0 [] []).
  - by rewrite !length_tracked.
Qed.

Lemma TrackFrameFeatures_inv (self self' : t) (frame : image) (frameNum : Z) :
  TrackFrameFeatures self frame frameNum = Some self' →
  prev_grey self' = frame ∧
  smoothingWindow self' = smoothingWindow self ∧
  trajectoryData self' = trajectoryData self ∧
  transformationData self' = transformationData self ∧
  match prev_grey self with
  | None =>
      last_T self' = last_T self ∧
      prev_to_cur_transform self' = prev_to_cur_transform self
  | Some _ =>
      ∃ M, last_T self' = Some M ∧
           (estimateRigidTransform
              (default ([], []) (tracked_corners (prev_grey self) frame)).1
              (default ([], []) (tracked_corners (prev_grey self) frame)).2
            = None → last_T self = Some M) ∧
           prev_to_cur_transform self'
           = prev_to_cur_transform self ++ [decompose M]
  end.
Proof.
  intros Htrack.
  destruct (prev_grey self) as [g|] eqn:Eg.
  - destruct (tracked_corners (prev_grey self) frame) as [[p2 c2]|] eqn:Ec.
    + rewrite (TrackFrameFeatures_next self frame frameNum p2 c2) in Htrack;
        [|by rewrite Eg|done].
      rewrite Eg in Ec. rewrite Ec. simpl.
      destruct (estimateRigidTransform p2 c2) as [M|] eqn:EM.
      * simpl in Htrack. injection Htrack as <-. simpl.
        repeat split; try done. exists M. by repeat split.
      * destruct (last_T self) as [M|]; simpl in Htrack; [|done].
        injection Htrack as <-. simpl.
        repeat split; try done. exists M. by repeat split.
    + exfalso. unfold TrackFrameFeatures in Htrack. rewrite Eg in Htrack.
      unfold tracked_corners in Ec. rewrite Eg in Ec.
      destruct (calcOpticalFlowPyrLK _ _ _) as [cur_corner status].
      by rewrite Ec in Htrack.
  - rewrite TrackFrameFeatures_first in Htrack by done.
    injection Htrack as <-. simpl. by repeat split.
Qed.

(** X2: a call of TrackFrameFeatures that returns keeps the frame as the
    previous one and leaves the window and both maps as they were. The
    first call (no previous frame) adds no delta; every later call adds
    exactly one, read off the transform it leaves in last_T, behind the
    deltas already there. *)
Theorem TrackFrameFeatures_effect (self self' : t) (frame : image)
    (frameNum : Z) :
  TrackFrameFeatures self frame frameNum = Some self' →
  prev_grey self' = frame ∧
  smoothingWindow self' = smoothingWindow self ∧
  trajectoryData self' = trajectoryData self ∧
  transformationData self' = transformationData self ∧
  match prev_grey self with
  | None =>
      last_T self' = last_T self ∧
      prev_to_cur_transform self' = prev_to_cur_transform self
  | Some _ =>
      ∃ M, last_T self' = Some M ∧
           prev_to_cur_transform self'
           = prev_to_cur_transform self ++ [decompose M]
  end.
Proof.
  intros Htrack.
  destruct (TrackFrameFeatures_inv _ _ _ _ Htrack) as (Hg & Hw & Htr & Htf & Hd).
  repeat split; try done.
  destruct (prev_grey self); [|done].
  destruct Hd as (M & HM & _ & Hd). by exists M.
Qed.

(** X3: once last_T holds a transform, an estimator that finds nothing
    cannot make TrackFrameFeatures fail any more: every call whose corner
    vectors can be read returns, and last_T holds a transform afterwards
    as well. *)
Theorem TrackFrameFeatures_after_first_estimate (self : t) (frame : image)
    (frameNum : Z) :
  is_Some (last_T self) →
  (is_Some (prev_grey self) →
   is_Some (tracked_corners (prev_grey self) frame)) →
  ∃ self', TrackFrameFeatures self frame frameNum = Some self' ∧
           is_Some (last_T self').
Proof.
  intros [M0 HM0] Hcorners.
  destruct (prev_grey self) as [g|] eqn:Eg.
  - destruct Hcorners as [[p2 c2] Ec]; [done|].
    rewrite (TrackFrameFeatures_next self frame frameNum p2 c2);
      [|by rewrite Eg|by rewrite Eg].
    rewrite HM0.
    destruct (estimateRigidTransform p2 c2) as [M|]; simpl; eauto.
  - rewrite TrackFrameFeatures_first by done.
    eexists; split; [done|]. simpl. by rewrite HM0.
Qed.

End TrackingLaws.

(** ** Smoothing: keys, return and divisor *)

Section SmoothingLaws.
Context `{OpenCV} `{Libm} `{DefaultCtor}.
Import CVStabilization.

Lemma foldlM_insert_keys {V : Type}
    (body : gmap N V → nat → option (gmap N V)) :
  (∀ m i m', body m i = Some m' → ∃ v, m' = <[N.of_nat i := v]> m) →
  ∀ (l : list nat) (m m' : gmap N V),
    foldlM body l m = Some m' →
    ∀ k : N, is_Some (m' !! k) ↔ is_Some (m !! k) ∨ N.to_nat k ∈ l.
Proof.
  intros Hbody l. induction l as [|i l IH]; intros m m' Hfold k.
  - simpl in Hfold. injection Hfold as <-. rewrite elem_of_nil. tauto.
  - cbn [foldlM] in Hfold.
    destruct (body m i) as [m1|] eqn:E; [|done]. csimpl in Hfold.
    destruct (Hbody _ _ _ E) as [v ->].
    rewrite (IH _ _ Hfold), lookup_insert_is_Some, elem_of_cons.
    destruct (decide (N.of_nat i = k)) as [<-|Hne].
    + rewrite Nat2N.id. tauto.
    + assert (N.to_nat k ≠ i) by lia. tauto.
Qed.

Lemma SmoothTrajectory_keys_below (self : t)
    (trajectory : list CamTrajectory.t) (smoothed : gmap N CamTrajectory.t) :
  SmoothTrajectory self trajectory = Some smoothed →
  Spec.keys_below (length trajectory) smoothed.
Proof.
  intros Hsmooth k. unfold SmoothTrajectory in Hsmooth.
  eapply foldlM_insert_keys in Hsmooth.
  - rewrite Hsmooth, lookup_empty, elem_of_seq.
    split.
    + intros [[? ?]|?]; [done|lia].
    + intros ?. right. lia.
  - intros m i m' Hbody.
    destruct (window_offsets _) as [js|]; [|done]. csimpl in Hbody.
    destruct (foldlM _ js _) as [[[[sum_x sum_y] sum_a] count]|]; [|done].
    csimpl in Hbody. injection Hbody as <-. eauto.
Qed.

(** X4: whenever SmoothTrajectory returns, whatever the window, the map it
    returns has exactly the keys 0..n-1 for a trajectory of n entries. *)
Theorem SmoothTrajectory_keys (self : t) (trajectory : list CamTrajectory.t)
    (smoothed : gmap N CamTrajectory.t) :
  SmoothTrajectory self trajectory = Some smoothed →
  ∀ k : N, is_Some (smoothed !! k) ↔ (k < N.of_nat (length trajectory))%N.
Proof. apply SmoothTrajectory_keys_below. Qed.

(** X5: for a window that is an int and a trajectory of at most INT_MAX
    entries, SmoothTrajectory returns exactly when the trajectory is empty
    or the window lies strictly between INT_MIN and INT_MAX: at the two
    ends the loop header [for(int j = -w; j <= w; j++)] leaves int. *)
Theorem SmoothTrajectory_returns (self : t)
    (trajectory : list CamTrajectory.t) :
  (INT_MIN ≤ smoothingWindow self ≤ INT_MAX)%Z →
  (Z.of_nat (length trajectory) ≤ INT_MAX)%Z →
  is_Some (SmoothTrajectory self trajectory)
  ↔ trajectory = [] ∨ (INT_MIN < smoothingWindow self < INT_MAX)%Z.
Proof.
  intros Hw Hn. split.
  - intros [smoothed Hsmooth].
    destruct trajectory as [|c trajectory]; [by left|right].
    unfold SmoothTrajectory in Hsmooth. cbn [length seq foldlM] in Hsmooth.
    destruct (window_offsets (smoothingWindow self)) as [js|] eqn:Ejs;
      [|done].
    destruct (decide (smoothingWindow self = INT_MIN)) as [E|Hmin].
    { by rewrite E in Ejs. }
    destruct (decide (smoothingWindow self = INT_MAX)) as [E|Hmax].
    { by rewrite E in Ejs. }
    lia.
  - intros [->|Hin]; [by eexists|].
    destruct (decide (smoothingWindow self < 0)%Z).
    + rewrite SmoothTrajectory_negative by lia. by eexists.
    + rewrite SmoothTrajectory_eq by (done || lia). by eexists.
Qed.

Lemma length_omap_all {A B : Type} (f : A → option B) (l : list A) :
  Forall (λ x, is_Some (f x)) l → length (omap f l) = length l.
Proof.
  induction 1 as [|x l [y Hy] _ IH]; [done|]. csimpl.
  rewrite Hy. cbn [length]. by rewrite IH.
Qed.

(** X6: for a window 0 <= W < INT_MAX, the divisor of the mean at index i
    of a trajectory of n <= INT_MAX entries is the number of indices of
    [i-W, i+W] inside [0, n-1], that is min(n-1, i+W) - max(0, i-W) + 1.
    It is at least 1, so no mean is a division by zero, and it is 2W+1
    when the window fits into the trajectory. *)
Theorem SmoothTrajectory_divisor (w : Z) (trajectory : list CamTrajectory.t)
    (i : nat) :
  (0 ≤ w < INT_MAX)%Z →
  (Z.of_nat (length trajectory) ≤ INT_MAX)%Z →
  i < length trajectory →
  let n := Z.of_nat (length trajectory) in
  let count := (Z.min (n - 1) (Z.of_nat i + w) - Z.max 0 (Z.of_nat i - w) + 1)%Z in
  SmoothTrajectory_count w trajectory i = Some count ∧
  (1 ≤ count ≤ 2 * w + 1)%Z ∧
  ((w ≤ Z.of_nat i ≤ n - 1 - w)%Z → count = (2 * w + 1)%Z).
Proof.
  intros Hw Hn Hi n count. split; [|subst n count; lia].
  unfold SmoothTrajectory_count. rewrite window_offsets_nonneg by done. csimpl.
  assert (Hwin : Spec.window (length trajectory) w i
                 = seqZ (Z.max 0 (Z.of_nat i - w)) count).
  { unfold Spec.window. rewrite filter_seqZ_interval. subst n count.
    f_equal; lia. }
  assert (Hlen : length (omap (λ j, trajectory !! Z.to_nat j)
                   (Spec.window (length trajectory) w i))
                 = Z.to_nat count).
  { rewrite Hwin, length_omap_all, length_seqZ; [done|].
    apply Forall_seqZ. intros j Hj. apply lookup_lt_is_Some_2.
    subst n count. lia. }
  rewrite SmoothTrajectory_window_fold; try done.
  - rewrite window_entries by lia. rewrite foldl_add_entry. csimpl.
    rewrite Hlen. f_equal. subst n count. lia.
  - apply Forall_seqZ. unfold INT_MAX in *. lia.
  - rewrite window_entries by lia. rewrite Hlen. simpl.
    subst n count. lia.
Qed.

End SmoothingLaws.

(** ** Accumulation and synthesis inside the pipeline *)

Section PipelineLaws.
Context `{OpenCV} `{Libm} `{DefaultCtor}.
Import CVStabilization.

(** X7: one more delta leaves the trajectory entries computed so far as
    they are and adds one entry behind them: the last entry (zero when
    there is none) plus the new delta, in x, y and the angle. *)
Theorem ComputeFramesTrajectory_snoc (self self' : t) (p : TransformParam.t) :
  prev_to_cur_transform self' = prev_to_cur_transform self ++ [p] →
  let c := default (CamTrajectory 0 0 0) (last (ComputeFramesTrajectory self)) in
  ComputeFramesTrajectory self'
  = ComputeFramesTrajectory self
    ++ [CamTrajectory (CamTrajectory.x c + TransformParam.dx p)
                      (CamTrajectory.y c + TransformParam.dy p)
                      (CamTrajectory.a c + TransformParam.da p)]%float.
Proof.
  intros Hsnoc c.
  assert (Hc : c = CamTrajectory
            (foldl (λ s p, s + TransformParam.dx p)%float 0%float
               (prev_to_cur_transform self))
            (foldl (λ s p, s + TransformParam.dy p)%float 0%float
               (prev_to_cur_transform self))
            (foldl (λ s p, s + TransformParam.da p)%float 0%float
               (prev_to_cur_transform self))).
  { subst c. rewrite ComputeFramesTrajectory_eq.
    destruct (prev_to_cur_transform self) as [|d ds _] using rev_ind; [done|].
    rewrite length_app, Nat.add_1_r, seq_S, fmap_app.
    cbn [fmap list_fmap]. rewrite last_snoc. simpl.
    unfold Spec.CameraTrajectory, Spec.prefix_sum.
    by rewrite take_ge by (rewrite length_app; simpl; lia). }
  rewrite !ComputeFramesTrajectory_eq, Hsnoc.
  rewrite length_app, Nat.add_1_r, seq_S, fmap_app. f_equal.
  - apply list_fmap_ext. intros j i [-> Hi]%lookup_seq.
    unfold Spec.CameraTrajectory, Spec.prefix_sum.
    by rewrite take_app_le by lia.
  - simpl. unfold Spec.CameraTrajectory, Spec.prefix_sum.
    rewrite take_ge by (rewrite length_app; simpl; lia).
    rewrite !foldl_app, Hc. done.
Qed.

Lemma GenNewCamPosition_keys_below (self : t)
    (smoothed_trajectory : gmap N CamTrajectory.t) :
  Spec.keys_below (length (prev_to_cur_transform self))
    (GenNewCamPosition self smoothed_trajectory).1.
Proof.
  intros k. unfold GenNewCamPosition.
  rewrite GenNewCamPosition_loop_lookup, decide_True by lia.
  replace (N.to_nat (k - 0)) with (N.to_nat k) by lia.
  destruct (prev_to_cur_transform self !! N.to_nat k) as [p|] eqn:E.
  - apply lookup_lt_Some in E. split; [lia|]. by eexists.
  - apply lookup_ge_None in E. rewrite lookup_empty. split; [by intros []|lia].
Qed.

Lemma GenNewCamPosition_smoothed_full (self : t)
    (smoothed_trajectory : gmap N CamTrajectory.t) :
  (∀ k : N, (k < N.of_nat (length (prev_to_cur_transform self)))%N →
            is_Some (smoothed_trajectory !! k)) →
  (GenNewCamPosition self smoothed_trajectory).2 = smoothed_trajectory.
Proof.
  intros Hfull. apply map_eq. intros k. unfold GenNewCamPosition.
  rewrite GenNewCamPosition_loop_smoothed.
  case_decide as Hk; [|done].
  destruct (Hfull k) as [c Hc]; [lia|]. by rewrite Hc.
Qed.

(** X8: GenNewCamPosition returns a map with exactly the keys 0..n-1 for n
    deltas, whatever the smoothed map holds; and when the smoothed map has
    an entry at each of these keys, it is left as it was (no default entry
    is added to it). *)
Theorem GenNewCamPosition_keys (self : t)
    (smoothed_trajectory : gmap N CamTrajectory.t) :
  let n := length (prev_to_cur_transform self) in
  let r := GenNewCamPosition self smoothed_trajectory in
  (∀ k : N, is_Some (r.1 !! k) ↔ (k < N.of_nat n)%N) ∧
  ((∀ k : N, (k < N.of_nat n)%N → is_Some (smoothed_trajectory !! k)) →
   r.2 = smoothed_trajectory).
Proof.
  split.
  - apply GenNewCamPosition_keys_below.
  - apply GenNewCamPosition_smoothed_full.
Qed.

Lemma ProcessClip_eq (self : t) (video : Clip.t) :
  ProcessClip self video
  = (seen ← ProcessClip_track self video;
     smoothed ← SmoothTrajectory seen (ComputeFramesTrajectory seen);
     Some (mk (last_T seen) (prev_grey seen)
              (prev_to_cur_transform seen) (smoothingWindow seen)
              (GenNewCamPosition seen smoothed).2
              (GenNewCamPosition seen smoothed).1)).
Proof.
  unfold ProcessClip, ProcessClip_track.
  destruct (foldlM _ _ self) as [seen|]; [|done]. csimpl.
  destruct (SmoothTrajectory _ _) as [smoothed|]; [|done]. csimpl.
  by destruct (GenNewCamPosition seen smoothed).
Qed.

Lemma track_frames_inv (video : Clip.t) (l : list Z) :
  ∀ self self' : t,
    foldlM
      (λ self frame_number,
         let cvimage := cvtColor_RGB2GRAY (Clip.GetFrame video frame_number) in
         TrackFrameFeatures self cvimage frame_number) l self
    = Some self' →
    smoothingWindow self' = smoothingWindow self ∧
    prev_to_cur_transform self `prefix_of` prev_to_cur_transform self' ∧
    (Forall (λ k, is_Some (cvtColor_RGB2GRAY (Clip.GetFrame video k))) l →
     length (prev_to_cur_transform self')
     = length (prev_to_cur_transform self)
       + (length l - match prev_grey self with None => 1 | Some _ => 0 end)).
Proof.
  induction l as [|k l IH]; intros self self' Hfold.
  - simpl in Hfold. injection Hfold as <-. split; [done|]. split; [done|].
    intros _. simpl. lia.
  - cbn [foldlM] in Hfold. cbv zeta in Hfold.
    destruct (TrackFrameFeatures self _ k) as [self1|] eqn:E1; [|done].
    csimpl in Hfold.
    destruct (IH _ _ Hfold) as (Hw & Hpre & Hlen).
    destruct (TrackFrameFeatures_inv _ _ _ _ E1) as (Hg & Hw1 & _ & _ & Hd).
    split; [congruence|].
    destruct (prev_grey self) as [g|].
    + destruct Hd as (M & _ & _ & Hd). rewrite Hd in Hpre, Hlen. split.
      * etrans; [|exact Hpre]. by apply prefix_app_r.
      * intros [Hk Hl]%Forall_cons. rewrite Hlen by done.
        rewrite Hg. destruct Hk as [g' ->].
        rewrite length_app. simpl. lia.
    + destruct Hd as [_ Hd]. rewrite Hd in Hpre, Hlen. split; [done|].
      intros [Hk Hl]%Forall_cons. rewrite Hlen by done.
      rewrite Hg. destruct Hk as [g' ->]. simpl. lia.
Qed.

Lemma ProcessClip_inv (self self' : t) (video : Clip.t) :
  ProcessClip self video = Some self' →
  ∃ seen,
    ProcessClip_track self video = Some seen ∧
    last_T self' = last_T seen ∧
    prev_grey self' = prev_grey seen ∧
    prev_to_cur_transform self' = prev_to_cur_transform seen ∧
    smoothingWindow self' = smoothingWindow seen ∧
    Spec.keys_below (length (prev_to_cur_transform self'))
      (trajectoryData self') ∧
    Spec.keys_below (length (prev_to_cur_transform self'))
      (transformationData self').
Proof.
  rewrite ProcessClip_eq. intros Hrun.
  destruct (ProcessClip_track self video) as [seen|]; [|done].
  csimpl in Hrun.
  destruct (SmoothTrajectory _ _) as [smoothed|] eqn:Es; [|done].
  csimpl in Hrun. injection Hrun as <-. exists seen. simpl.
  split_and!; try done.
  - apply SmoothTrajectory_keys_below in Es.
    assert (Hlen : length (ComputeFramesTrajectory seen)
                   = length (prev_to_cur_transform seen)).
    { by rewrite ComputeFramesTrajectory_eq, length_fmap, length_seq. }
    rewrite Hlen in Es.
    rewrite GenNewCamPosition_smoothed_full; [done|].
    intros k Hk. by apply Es.
  - apply GenNewCamPosition_keys_below.
Qed.

(** X9: when ProcessClip returns, the window is as before, the deltas the
    object held are still there in front of the new ones, and both maps
    have been replaced by maps with exactly the keys 0..n-1, n being the
    number of deltas now held. *)
Theorem ProcessClip_keys (self self' : t) (video : Clip.t) :
  ProcessClip self video = Some self' →
  let n := length (prev_to_cur_transform self') in
  smoothingWindow self' = smoothingWindow self ∧
  prev_to_cur_transform self `prefix_of` prev_to_cur_transform self' ∧
  (∀ k : N, is_Some (trajectoryData self' !! k) ↔ (k < N.of_nat n)%N) ∧
  (∀ k : N, is_Some (transformationData self' !! k) ↔ (k < N.of_nat n)%N).
Proof.
  intros Hrun n.
  destruct (ProcessClip_inv _ _ _ Hrun)
    as (seen & Htrack & _ & _ & Hd & Hw & Htr & Htf).
  destruct (track_frames_inv _ _ _ _ Htrack) as (Hw' & Hpre & _).
  split_and!; [congruence|by rewrite Hd|apply Htr|apply Htf].
Qed.


(** X11: on an object that holds no previous frame and no delta, a clip
    whose video length is 0 (a single frame is requested) makes ProcessClip
    return with no delta and two empty maps, whatever the window is. *)
Theorem ProcessClip_single_frame (self : t) (video : Clip.t) :
  prev_grey self = None →
  prev_to_cur_transform self = [] →
  Clip.video_length video = 0%Z →
  ProcessClip self video
  = Some (mk (last_T self) (cvtColor_RGB2GRAY (Clip.GetFrame video 0)) []
             (smoothingWindow self) ∅ ∅).
Proof.
  intros Hg Hd Hlen. rewrite ProcessClip_eq. unfold ProcessClip_track.
  rewrite Hlen. change (int_of_int64 0) with 0%Z. cbn [Z.add seqZ]. simpl.
  rewrite TrackFrameFeatures_first by done. csimpl.
  unfold ComputeFramesTrajectory, GenNewCamPosition. simpl. rewrite Hd.
  done.
Qed.

End PipelineLaws.

(** ** Saving and loading: what is written, what is replaced *)

Section StoreLaws.
Context `{OpenCV} `{Libm} `{DefaultCtor}.

Lemma length_iterate {A : Type} (m : gmap N A) : length (iterate m) = size m.
Proof. by rewrite (Permutation_length (iterate_perm m)), length_map_to_list. Qed.

Lemma SaveStabilizedData_loop_zip (trajData : list (N * CamTrajectory.t)) :
  ∀ (transData : list (N * TransformParam.t)) (frames : list Frame.t),
    CVStabilization.SaveStabilizedData_loop trajData transData frames
    = if decide (length trajData ≤ length transData)
      then Some (frames ++
                 zip_with (λ tj tf, CVStabilization.AddFrameDataToProto
                                      tj.2 tf.2 tj.1) trajData transData)
      else None.
Proof.
  induction trajData as [|tj trajData IH]; intros transData frames.
  - cbn [CVStabilization.SaveStabilizedData_loop length zip_with].
    rewrite decide_True by lia. by rewrite app_nil_r.
  - destruct transData as [|tf transData]; cbn [CVStabilization.SaveStabilizedData_loop].
    + by rewrite decide_False by (cbn [length]; lia).
    + rewrite IH. cbn [length zip_with].
      destruct (decide (length trajData ≤ length transData)).
      * rewrite decide_True by lia. by rewrite <- app_assoc.
      * by rewrite decide_False by lia.
Qed.

(** X12: SaveStabilizedData advances an iterator over transformationData
    together with the one over trajectoryData and stops with the latter:
    it has a defined result exactly when transformationData has at least
    as many entries as trajectoryData (otherwise the transform iterator is
    read at its end). *)
Theorem SaveStabilizedData_returns (self : CVStabilization.t) (path : string)
    (now : Z) (fs : filesystem.t) :
  is_Some (CVStabilization.SaveStabilizedData self path now fs)
  ↔ size (CVStabilization.trajectoryData self)
    ≤ size (CVStabilization.transformationData self).
Proof.
  unfold CVStabilization.SaveStabilizedData.
  rewrite SaveStabilizedData_loop_zip, !length_iterate.
  case_decide as Hsize; csimpl.
  - split; [done|]. by eexists.
  - split; [by intros []|done].
Qed.

(** X13: when transformationData has at least as many entries as
    trajectoryData, SaveStabilizedData returns false and leaves the disk as
    it was if the path cannot be written; otherwise it returns true, every
    other file is untouched, and the file at the path parses to a message
    with the time stamp and one record per trajectory entry, in increasing
    key order: the record carries the key as its id and the entry narrowed
    to single precision, and beside it the transform met at the same
    position of transformationData (in key order), whatever its key. *)
Theorem SaveStabilizedData_file (self : CVStabilization.t) (path : string)
    (now : Z) (fs : filesystem.t) :
  size (CVStabilization.trajectoryData self)
  ≤ size (CVStabilization.transformationData self) →
  ∃ (ok : bool) (fs' : filesystem.t),
    CVStabilization.SaveStabilizedData self path now fs = Some (ok, fs') ∧
    ok = filesystem.writable fs path ∧
    (ok = false → fs' = fs) ∧
    (ok = true →
     (∀ path', path' ≠ path →
        filesystem.files fs' !! path' = filesystem.files fs !! path') ∧
     ∃ msg,
       ParseFromIstream fs' path = Some msg ∧
       Stabilization.last_updated msg = Some now ∧
       (λ pb, (Frame.id pb, Frame_trajectory pb)) <$> Stabilization.frame msg
       = prod_map id Spec.narrow_trajectory
         <$> iterate (CVStabilization.trajectoryData self) ∧
       Frame_transform <$> Stabilization.frame msg
       = Spec.narrow_transform
         <$> take (size (CVStabilization.trajectoryData self))
               (iterate (CVStabilization.transformationData self)).*2).
Proof.
  intros Hsize. unfold CVStabilization.SaveStabilizedData.
  rewrite SaveStabilizedData_loop_zip, decide_True
    by (by rewrite !length_iterate).
  csimpl. unfold SerializeToOstream.
  destruct (filesystem.writable fs path) eqn:Hw.
  - eexists true, _. split; [done|]. split; [done|]. split; [done|].
    intros _. split.
    + intros path' Hne. simpl. by rewrite lookup_insert_ne.
    + eexists. unfold ParseFromIstream. simpl. rewrite lookup_insert_eq.
      split; [done|]. split; [done|]. simpl.
      rewrite <- (length_iterate (CVStabilization.trajectoryData self)).
      revert Hsize. rewrite <- !length_iterate.
      generalize (iterate (CVStabilization.transformationData self)) as tf.
      generalize (iterate (CVStabilization.trajectoryData self)) as tr.
      induction tr as [|[k c] tr IH]; intros [|[k' p] tf] Hlen;
        simpl in *; try done; try lia.
      destruct (IH tf) as [IH1 IH2]; [lia|].
      split; f_equal; first [exact IH1|exact IH2|done].
  - eexists false, fs. by repeat split.
Qed.

(** X14: a load from a file that parses returns true in both classes and
    replaces both maps: whatever they held before, key k now holds the
    values of the record at position k of the file, and no key at or past
    the number of records is left. The two classes end with the same maps,
    the other members of the analysis object are not touched, and loading
    the same file again changes nothing. *)
Theorem LoadStabilizedData_replaces (self : CVStabilization.t)
    (effect : Stabilizer.t) (path : string) (fs : filesystem.t)
    (msg : Stabilization.t) :
  ParseFromIstream fs path = Some msg →
  let r := CVStabilization.LoadStabilizedData self path fs in
  let e := Stabilizer.LoadStabilizedData effect path fs in
  r.1 = true ∧ e.1 = true ∧
  (∀ k : N,
     CVStabilization.trajectoryData r.2 !! k
     = Frame_trajectory <$> Stabilization.frame msg !! N.to_nat k ∧
     CVStabilization.transformationData r.2 !! k
     = Frame_transform <$> Stabilization.frame msg !! N.to_nat k) ∧
  Stabilizer.trajectoryData e.2 = CVStabilization.trajectoryData r.2 ∧
  Stabilizer.transformationData e.2 = CVStabilization.transformationData r.2 ∧
  (CVStabilization.last_T r.2 = CVStabilization.last_T self ∧
   CVStabilization.prev_grey r.2 = CVStabilization.prev_grey self ∧
   CVStabilization.prev_to_cur_transform r.2
   = CVStabilization.prev_to_cur_transform self ∧
   CVStabilization.smoothingWindow r.2 = CVStabilization.smoothingWindow self) ∧
  CVStabilization.LoadStabilizedData r.2 path fs = r ∧
  Stabilizer.LoadStabilizedData e.2 path fs = e.
Proof.
  intros Hparse r e. subst r e.
  unfold CVStabilization.LoadStabilizedData, Stabilizer.LoadStabilizedData.
  rewrite !Hparse.
  pose proof (Stabilizer_LoadStabilizedData_loop (Stabilization.frame msg)
                0%N ∅ ∅) as Hsame.
  pose proof (LoadStabilizedData_loop_lookup (Stabilization.frame msg))
    as Hlookup.
  destruct (Stabilizer.LoadStabilizedData_loop _ _ _ _) as [tr' tf'].
  destruct (CVStabilization.LoadStabilizedData_loop _ _ _ _) as [tr tf].
  injection Hsame as -> ->. simpl in *. by split_and!.
Qed.

End StoreLaws.

(** ** From the file to the rendered frame *)

Section RenderingLaws.
Context `{OpenCV} `{Libm} `{DefaultCtor}.

Lemma Stabilizer_eta (effect : Stabilizer.t) :
  Stabilizer.mk (Stabilizer.transformationData effect)
                (Stabilizer.trajectoryData effect) = effect.
Proof. by destruct effect. Qed.

Lemma new_from_lookup (path : string) (fs : filesystem.t)
    (msg : Stabilization.t) (k : N) :
  ParseFromIstream fs path = Some msg →
  Stabilizer.transformationData (Stabilizer.new_from path fs) !! k
  = Frame_transform <$> Stabilization.frame msg !! N.to_nat k.
Proof.
  intros Hparse. unfold Stabilizer.new_from, Stabilizer.LoadStabilizedData.
  rewrite Hparse.
  pose proof (Stabilizer_LoadStabilizedData_loop (Stabilization.frame msg)
                0%N ∅ ∅) as Hsame.
  pose proof (LoadStabilizedData_loop_lookup (Stabilization.frame msg) k)
    as [_ Hlookup].
  destruct (Stabilizer.LoadStabilizedData_loop _ _ _ _) as [tr' tf'].
  destruct (CVStabilization.LoadStabilizedData_loop _ _ _ _) as [tr tf].
  by injection Hsame as -> ->.
Qed.

(** X15: an effect constructed from a file that parses renders frame
    number k, for k within the records of the file, with the dx, dy and da
    of the record at position k, and is left unchanged by the call. *)
Theorem GetFrame_loaded (path : string) (fs : filesystem.t)
    (msg : Stabilization.t) (frame : image) (frame_number : Z)
    (pb : Frame.t) :
  ParseFromIstream fs path = Some msg →
  (0 ≤ frame_number < 2 ^ 63)%Z →
  Stabilization.frame msg !! Z.to_nat frame_number = Some pb →
  Stabilizer.GetFrame (Stabilizer.new_from path fs) frame frame_number
  = (warp_with (Frame_transform pb) frame, Stabilizer.new_from path fs).
Proof.
  intros Hparse Hrange Hpb. rewrite GetFrame_eq. cbv zeta.
  unfold subscript.
  rewrite (new_from_lookup _ _ _ _ Hparse).
  unfold size_t_of_int64. rewrite Z.mod_small by lia.
  rewrite Z_N_nat, Hpb. simpl. by rewrite Stabilizer_eta.
Qed.

(** X16: a negative frame number is converted to size_t where it indexes
    the map, so it names a key of at least 2^63. An effect constructed from
    a file (of no more than 2^63 records) has no such key: the render uses
    the default-constructed transform and leaves it in the map at key
    2^64 + frame_number. *)
Theorem GetFrame_negative_frame_number (path : string) (fs : filesystem.t)
    (msg : Stabilization.t) (frame : image) (frame_number : Z) :
  ParseFromIstream fs path = Some msg →
  (Z.of_nat (length (Stabilization.frame msg)) ≤ 2 ^ 63)%Z →
  (- 2 ^ 63 ≤ frame_number < 0)%Z →
  let effect := Stabilizer.new_from path fs in
  let k := Z.to_N (2 ^ 64 + frame_number) in
  Stabilizer.GetFrame effect frame frame_number
  = (warp_with (TransformParam_default k) frame,
     Stabilizer.mk
       (<[k := TransformParam_default k]> (Stabilizer.transformationData effect))
       (Stabilizer.trajectoryData effect)).
Proof.
  intros Hparse Hlen Hrange effect k. rewrite GetFrame_eq. cbv zeta.
  assert (Hk : size_t_of_int64 frame_number = k).
  { unfold size_t_of_int64. subst k. f_equal.
    symmetry. apply (Z.mod_unique _ _ (-1)); lia. }
  rewrite Hk. unfold subscript. subst effect.
  rewrite (new_from_lookup _ _ _ _ Hparse).
  rewrite (lookup_ge_None_2 (Stabilization.frame msg)); [done|].
  subst k. lia.
Qed.

(** X17: after a render of frame number n, a further render of n, of any
    image, leaves the effect as the first render left it and warps with
    the entry the first render used: the stored one, or the default
    entry the first render added. *)
Theorem GetFrame_again (self : Stabilizer.t) (frame frame' : image)
    (frame_number : Z) :
  let first := Stabilizer.GetFrame self frame frame_number in
  let e := (subscript TransformParam_default
              (Stabilizer.transformationData self)
              (size_t_of_int64 frame_number)).1 in
  first.1 = warp_with e frame ∧
  Stabilizer.GetFrame first.2 frame' frame_number
  = (warp_with e frame', first.2).
Proof.
  cbv zeta. rewrite !GetFrame_eq. cbv zeta. simpl.
  split; [done|]. by rewrite subscript_again.
Qed.

(** X18: the constructor that takes a path drops the result of the load.
    On a file that is missing or does not parse it yields the same effect
    as the default constructor, with two empty maps, and every render of
    that effect warps with the default-constructed transform. *)
Theorem new_from_unreadable (path : string) (fs : filesystem.t)
    (frame : image) (frame_number : Z) :
  ParseFromIstream fs path = None →
  Stabilizer.new_from path fs = Stabilizer.new ∧
  let k := size_t_of_int64 frame_number in
  Stabilizer.GetFrame (Stabilizer.new_from path fs) frame frame_number
  = (warp_with (TransformParam_default k) frame,
     Stabilizer.mk {[ k := TransformParam_default k ]} ∅).
Proof.
  intros Hparse.
  assert (Hnew : Stabilizer.new_from path fs = Stabilizer.new).
  { unfold Stabilizer.new_from, Stabilizer.LoadStabilizedData.
    by rewrite Hparse. }
  split; [done|]. rewrite Hnew, GetFrame_eq. done.
Qed.

(** X19: the whole pass. When ProcessClip returns and the path can be
    written, SaveStabilizedData on the resulting object returns true, and
    the written file gives back, to LoadStabilizedData on any analysis
    object and to an effect constructed from the path, the two maps that
    ProcessClip left, with every component narrowed to single precision. *)
Theorem ProcessClip_save_load (self self' other : CVStabilization.t)
    (video : Clip.t) (path : string) (now : Z) (fs : filesystem.t) :
  CVStabilization.ProcessClip self video = Some self' →
  filesystem.writable fs path = true →
  ∃ fs',
    CVStabilization.SaveStabilizedData self' path now fs = Some (true, fs') ∧
    CVStabilization.LoadStabilizedData other path fs'
    = (true,
       CVStabilization.mk
         (CVStabilization.last_T other) (CVStabilization.prev_grey other)
         (CVStabilization.prev_to_cur_transform other)
         (CVStabilization.smoothingWindow other)
         (Spec.narrow_trajectory <$> CVStabilization.trajectoryData self')
         (Spec.narrow_transform <$> CVStabilization.transformationData self')) ∧
    Stabilizer.new_from path fs'
    = Stabilizer.mk
        (Spec.narrow_transform <$> CVStabilization.transformationData self')
        (Spec.narrow_trajectory <$> CVStabilization.trajectoryData self').
Proof.
  intros Hrun Hw.
  destruct (ProcessClip_inv _ _ _ Hrun) as (_ & _ & _ & _ & _ & _ & Htr & Htf).
  destruct (save_load_maps _ _ _ Htr Htf) as (frames & Hsave & Hload).
  pose proof (Stabilizer_LoadStabilizedData_loop frames 0 ∅ ∅) as Hload'.
  rewrite Hload in Hload'.
  unfold CVStabilization.SaveStabilizedData. rewrite Hsave. csimpl.
  unfold SerializeToOstream. rewrite Hw. eexists. split; [done|].
  unfold Stabilizer.new_from, CVStabilization.LoadStabilizedData,
    Stabilizer.LoadStabilizedData, ParseFromIstream.
  cbn [filesystem.files]. rewrite lookup_insert_eq. csimpl.
  rewrite Hload, Hload'. done.
Qed.

End RenderingLaws.

(** ** Compositions *)

Section Compositions.
Context `{OpenCV} `{Libm} `{DefaultCtor}.

Lemma subscript_lookup {A : Type} (dflt : N → A) (m : gmap N A) (k k' : N) :
  (subscript dflt m k).2 !! k'
  = if decide (k = k') then Some (default (dflt k) (m !! k)) else m !! k'.
Proof.
  case_decide as Hk.
  - subst k'. rewrite subscript_map.
    destruct (m !! k) as [v|] eqn:E; [done|]. by rewrite lookup_insert_eq.
  - by apply subscript_lookup_ne.
Qed.

(** X20: an entry the mapping holds is not disturbed by a render of
    another frame number. When the mapping holds the entry e at frame
    number m, then after a render of any frame number n, which may add an
    entry at n, the mapping still holds e at m, and a render of m returns
    the image warped with e, the one it would have returned before, and
    leaves the effect as the render of n left it. *)
Theorem GetFrame_stored_after_render (self : Stabilizer.t)
    (frame frame' : image) (n m : Z) (e : TransformParam.t) :
  Stabilizer.transformationData self !! size_t_of_int64 m = Some e →
  let first := Stabilizer.GetFrame self frame n in
  Stabilizer.transformationData first.2 !! size_t_of_int64 m = Some e ∧
  (Stabilizer.GetFrame self frame' m).1 = warp_with e frame' ∧
  Stabilizer.GetFrame first.2 frame' m = (warp_with e frame', first.2).
Proof.
  intros He first.
  assert (Hkept : Stabilizer.transformationData first.2 !! size_t_of_int64 m
                  = Some e).
  { subst first. rewrite GetFrame_eq. cbv zeta. simpl.
    rewrite subscript_lookup. case_decide as Hk; [|done].
    by rewrite Hk, He. }
  split; [done|]. split.
  - rewrite GetFrame_eq. cbv zeta. simpl. unfold subscript. by rewrite He.
  - rewrite GetFrame_eq. cbv zeta. unfold subscript. rewrite Hkept. simpl.
    by rewrite Stabilizer_eta.
Qed.

(** X21: the entries come back from a save and a load at their rank in
    key order, not at their key. For maps of any keys, transformationData
    having at least as many entries as trajectoryData, and a writable
    path, the save returns true and a load of the written file leaves at
    key j the trajectory entry that was j-th in key order, narrowed to
    single precision, and the transform that was j-th in key order, as far
    as there are trajectory entries. *)
Theorem save_then_load_by_rank (self other : CVStabilization.t)
    (path : string) (now : Z) (fs : filesystem.t) :
  size (CVStabilization.trajectoryData self)
  ≤ size (CVStabilization.transformationData self) →
  filesystem.writable fs path = true →
  ∃ fs',
    CVStabilization.SaveStabilizedData self path now fs = Some (true, fs') ∧
    let r := CVStabilization.LoadStabilizedData other path fs' in
    r.1 = true ∧
    ∀ j : nat,
      CVStabilization.trajectoryData r.2 !! N.of_nat j
      = (Spec.narrow_trajectory ∘ snd)
        <$> iterate (CVStabilization.trajectoryData self) !! j ∧
      CVStabilization.transformationData r.2 !! N.of_nat j
      = (Spec.narrow_transform ∘ snd)
        <$> take (size (CVStabilization.trajectoryData self))
              (iterate (CVStabilization.transformationData self)) !! j.
Proof.
  intros Hsize Hw. unfold CVStabilization.SaveStabilizedData.
  rewrite SaveStabilizedData_loop_zip, decide_True
    by (by rewrite !length_iterate).
  csimpl. unfold SerializeToOstream. rewrite Hw. eexists. split; [done|].
  unfold CVStabilization.LoadStabilizedData, ParseFromIstream.
  cbn [filesystem.files]. rewrite lookup_insert_eq. csimpl.
  match goal with
  | |- context [CVStabilization.LoadStabilizedData_loop ?frames _ _ _] =>
      pose proof (LoadStabilizedData_loop_lookup frames) as Hlookup;
      destruct (CVStabilization.LoadStabilizedData_loop frames _ _ _)
        as [tr tf]
  end.
  simpl in Hlookup |- *. split; [done|]. intros j.
  destruct (Hlookup (N.of_nat j)) as [-> ->]. rewrite Nat2N.id.
  rewrite lookup_zip_with.
  rewrite <- (length_iterate (CVStabilization.trajectoryData self)).
  destruct (iterate (CVStabilization.trajectoryData self) !! j)
    as [[k c]|] eqn:Etr.
  - apply lookup_lt_Some in Etr as Hj.
    rewrite lookup_take_lt by done.
    destruct (lookup_lt_is_Some_2
                (iterate (CVStabilization.transformationData self)) j)
      as [[k' p] Etf].
    { rewrite !length_iterate in *. lia. }
    rewrite Etf. done.
  - apply lookup_ge_None in Etr as Hj.
    rewrite lookup_take_ge by done. done.
Qed.

(** X22: what ProcessClip leaves in the two maps, for a window
    0 <= W < INT_MAX and at most INT_MAX deltas: at every index i of the
    deltas held after the call, trajectoryData holds the mean of the
    camera trajectory over the window around i, and transformationData
    holds the delta plus the difference between that mean and the camera
    trajectory at i. *)
Theorem ProcessClip_maps (self self' : CVStabilization.t) (video : Clip.t)
    (i : nat) (p : TransformParam.t) (c : CamTrajectory.t) :
  (0 ≤ CVStabilization.smoothingWindow self < INT_MAX)%Z →
  CVStabilization.ProcessClip self video = Some self' →
  (Z.of_nat (length (CVStabilization.prev_to_cur_transform self'))
   ≤ INT_MAX)%Z →
  CVStabilization.prev_to_cur_transform self' !! i = Some p →
  CVStabilization.ComputeFramesTrajectory self' !! i = Some c →
  let s :=
    Spec.window_mean (CVStabilization.ComputeFramesTrajectory self')
      (CVStabilization.smoothingWindow self) i in
  CVStabilization.trajectoryData self' !! N.of_nat i = Some s ∧
  CVStabilization.transformationData self' !! N.of_nat i
  = Some (TransformParam
      (TransformParam.dx p + (CamTrajectory.x s - CamTrajectory.x c))
      (TransformParam.dy p + (CamTrajectory.y s - CamTrajectory.y c))
      (TransformParam.da p + (CamTrajectory.a s - CamTrajectory.a c)))%float.
Proof.
  intros Hw Hrun Hn Hp Hc s.
  pose proof Hrun as Hrun'. rewrite ProcessClip_eq in Hrun'.
  destruct (ProcessClip_track self video) as [seen|] eqn:Htrack;
    [|done].
  destruct (track_frames_inv _ _ _ _ Htrack) as (Hw' & _ & _).
  csimpl in Hrun'.
  assert (Hlen : length (CVStabilization.ComputeFramesTrajectory seen)
                 = length (CVStabilization.prev_to_cur_transform seen)).
  { by rewrite ComputeFramesTrajectory_eq, length_fmap, length_seq. }
  destruct (CVStabilization.SmoothTrajectory seen _) as [smoothed|] eqn:Es;
    [|done].
  csimpl in Hrun'. injection Hrun' as <-.
  cbn [CVStabilization.prev_to_cur_transform CVStabilization.trajectoryData
       CVStabilization.transformationData] in *.
  assert (Htraj : CVStabilization.ComputeFramesTrajectory
                    (CVStabilization.mk
                       (CVStabilization.last_T seen)
                       (CVStabilization.prev_grey seen)
                       (CVStabilization.prev_to_cur_transform seen)
                       (CVStabilization.smoothingWindow seen)
                       (CVStabilization.GenNewCamPosition seen smoothed).2
                       (CVStabilization.GenNewCamPosition seen smoothed).1)
                  = CVStabilization.ComputeFramesTrajectory seen) by done.
  rewrite Htraj in Hc. subst s. rewrite Htraj. clear Htraj.
  assert (Hsm : smoothed !! N.of_nat i
                = Some (Spec.window_mean
                          (CVStabilization.ComputeFramesTrajectory seen)
                          (CVStabilization.smoothingWindow self) i)).
  { rewrite SmoothTrajectory_eq in Es by (rewrite ?Hlen, ?Hw'; done).
    injection Es as <-. rewrite foldl_insert_lookup, Nat2N.id, decide_True.
    - by rewrite Hw'.
    - apply elem_of_seq. apply lookup_lt_Some in Hc. lia. }
  split.
  - rewrite GenNewCamPosition_smoothed_full; [done|].
    intros k Hk. apply (SmoothTrajectory_keys_below _ _ _ Es). lia.
  - rewrite GenNewCamPosition_lookup, Hp, Hc. csimpl.
    by rewrite subscript_value, Hsm.
Qed.

End Compositions.

(** ** The further properties on concrete inputs *)

Section MoreEvaluation.
Import Examples.
#[local] Existing Instance Doubles.opencv.
#[local] Existing Instance Doubles.libm.
#[local] Existing Instance Doubles.ctor.

Lemma remove_untracked_tracked_witness :
  let status := [true; false; true] in
  let prev_corner := [(1, 1); (2, 1); (1, 2)]%float in
  let cur_corner := [(2, 1); (0, 0); (2, 2)]%float in
  CVStabilization.remove_untracked status prev_corner cur_corner
  = Some (tracked status prev_corner, tracked status cur_corner) ∧
  length (tracked status prev_corner) = length (tracked status cur_corner).
Proof.
  apply (remove_untracked_tracked (H := Doubles.opencv) [true; false; true]
           [(1, 1); (2, 1); (1, 2)]%float [(2, 1); (0, 0); (2, 2)]%float);
    simpl; lia.
Defined.

Lemma TrackFrameFeatures_effect_witness :
  let self := CVStabilization.mk None textured [] 30 ∅ ∅ in
  let M := Mat2x3.mk 1 0 0 0 1 0 in
  let self' := CVStabilization.mk (Some M) textured [decompose M] 30 ∅ ∅ in
  CVStabilization.prev_grey self' = textured ∧
  CVStabilization.smoothingWindow self' = CVStabilization.smoothingWindow self ∧
  CVStabilization.trajectoryData self' = CVStabilization.trajectoryData self ∧
  CVStabilization.transformationData self'
  = CVStabilization.transformationData self ∧
  match CVStabilization.prev_grey self with
  | None =>
      CVStabilization.last_T self' = CVStabilization.last_T self ∧
      CVStabilization.prev_to_cur_transform self'
      = CVStabilization.prev_to_cur_transform self
  | Some _ =>
      ∃ M, CVStabilization.last_T self' = Some M ∧
           CVStabilization.prev_to_cur_transform self'
           = CVStabilization.prev_to_cur_transform self ++ [decompose M]
  end.
Proof.
  apply (TrackFrameFeatures_effect
           (CVStabilization.mk None textured [] 30 ∅ ∅) _ textured 1).
  vm_compute. reflexivity.
Defined.

Lemma TrackFrameFeatures_after_first_estimate_witness :
  let self :=
    CVStabilization.mk (Some (Mat2x3.mk 1 0 5 0 1 0)) sparse [] 30 ∅ ∅ in
  ∃ self', CVStabilization.TrackFrameFeatures self sparse 1 = Some self' ∧
           is_Some (CVStabilization.last_T self').
Proof.
  apply (TrackFrameFeatures_after_first_estimate
           (CVStabilization.mk (Some (Mat2x3.mk 1 0 5 0 1 0)) sparse [] 30 ∅ ∅)
           sparse 1).
  - by eexists.
  - intros _. by eexists.
Defined.

Lemma SmoothTrajectory_keys_witness :
  ∃ smoothed : gmap N CamTrajectory.t,
    CVStabilization.SmoothTrajectory window1 trajectory = Some smoothed ∧
    ∀ k : N, is_Some (smoothed !! k) ↔ (k < N.of_nat (length trajectory))%N.
Proof.
  eexists. split; [vm_compute; reflexivity|].
  apply (SmoothTrajectory_keys window1 trajectory).
  vm_compute. reflexivity.
Defined.

Lemma SmoothTrajectory_returns_witness :
  is_Some (CVStabilization.SmoothTrajectory window1 trajectory)
  ↔ trajectory = [] ∨
    (INT_MIN < CVStabilization.smoothingWindow window1 < INT_MAX)%Z.
Proof.
  apply (SmoothTrajectory_returns window1 trajectory);
    unfold INT_MIN, INT_MAX; simpl; lia.
Defined.

Lemma SmoothTrajectory_divisor_witness :
  let n := Z.of_nat (length trajectory) in
  let count := (Z.min (n - 1) (Z.of_nat 0 + 1) - Z.max 0 (Z.of_nat 0 - 1) + 1)%Z in
  SmoothTrajectory_count 1 trajectory 0 = Some count ∧
  (1 ≤ count ≤ 2 * 1 + 1)%Z ∧
  ((1 ≤ Z.of_nat 0 ≤ n - 1 - 1)%Z → count = (2 * 1 + 1)%Z).
Proof.
  apply (SmoothTrajectory_divisor 1 trajectory 0);
    unfold INT_MAX; simpl; lia.
Defined.

Lemma ComputeFramesTrajectory_snoc_witness :
  let self := analysed in
  let p := TransformParam (-1) 0 0 in
  let self' :=
    CVStabilization.mk None None
      [TransformParam 1 0 0; TransformParam 1 0 0; p] 1 ∅ ∅ in
  let c := default (CamTrajectory 0 0 0)
             (last (CVStabilization.ComputeFramesTrajectory self)) in
  CVStabilization.ComputeFramesTrajectory self'
  = CVStabilization.ComputeFramesTrajectory self
    ++ [CamTrajectory (CamTrajectory.x c + TransformParam.dx p)
                      (CamTrajectory.y c + TransformParam.dy p)
                      (CamTrajectory.a c + TransformParam.da p)]%float.
Proof.
  apply (ComputeFramesTrajectory_snoc analysed
           (CVStabilization.mk None None
              [TransformParam 1 0 0; TransformParam 1 0 0;
               TransformParam (-1) 0 0] 1 ∅ ∅)
           (TransformParam (-1) 0 0)).
  reflexivity.
Defined.

Lemma GenNewCamPosition_keys_witness :
  CVStabilization.GenNewCamPosition analysed
    (CVStabilization.trajectoryData analysed)
  = ({[ 0%N := TransformParam (1 + (1.5 - 1)) 0 0;
        1%N := TransformParam (1 + (1.5 - 2)) 0 0 ]},
     CVStabilization.trajectoryData analysed).
Proof.
  destruct (GenNewCamPosition_keys analysed
              (CVStabilization.trajectoryData analysed)) as [_ Hsame].
  apply injective_projections; [vm_compute; reflexivity|].
  apply Hsame. intros k Hk. apply (proj1 analysed_keys). exact Hk.
Defined.

Lemma ProcessClip_keys_witness :
  ∃ self',
    CVStabilization.ProcessClip (CVStabilization.new 1) panning = Some self' ∧
    let n := length (CVStabilization.prev_to_cur_transform self') in
    CVStabilization.smoothingWindow self'
    = CVStabilization.smoothingWindow (CVStabilization.new 1) ∧
    CVStabilization.prev_to_cur_transform (CVStabilization.new 1)
      `prefix_of` CVStabilization.prev_to_cur_transform self' ∧
    (∀ k : N, is_Some (CVStabilization.trajectoryData self' !! k)
              ↔ (k < N.of_nat n)%N) ∧
    (∀ k : N, is_Some (CVStabilization.transformationData self' !! k)
              ↔ (k < N.of_nat n)%N).
Proof.
  eexists. split; [vm_compute; reflexivity|].
  apply (ProcessClip_keys (CVStabilization.new 1) _ panning).
  vm_compute. reflexivity.
Defined.


Lemma ProcessClip_single_frame_witness :
  let video := @Clip.mk Doubles.opencv 0 (λ _, textured) in
  CVStabilization.ProcessClip (CVStabilization.new 30) video
  = Some (CVStabilization.mk
            (CVStabilization.last_T (CVStabilization.new 30))
            (cvtColor_RGB2GRAY (Clip.GetFrame video 0)) []
            (CVStabilization.smoothingWindow (CVStabilization.new 30)) ∅ ∅).
Proof.
  apply (ProcessClip_single_frame (CVStabilization.new 30)
           (@Clip.mk Doubles.opencv 0 (λ _, textured)));
    reflexivity.
Defined.

Lemma SaveStabilizedData_file_witness :
  ∃ (ok : bool) (fs' : filesystem.t),
    CVStabilization.SaveStabilizedData analysed path 7 disk = Some (ok, fs') ∧
    ok = filesystem.writable disk path ∧
    (ok = false → fs' = disk) ∧
    (ok = true →
     (∀ path', path' ≠ path →
        filesystem.files fs' !! path' = filesystem.files disk !! path') ∧
     ∃ msg,
       ParseFromIstream fs' path = Some msg ∧
       Stabilization.last_updated msg = Some 7%Z ∧
       (λ pb, (Frame.id pb, Frame_trajectory pb)) <$> Stabilization.frame msg
       = prod_map id Spec.narrow_trajectory
         <$> iterate (CVStabilization.trajectoryData analysed) ∧
       Frame_transform <$> Stabilization.frame msg
       = Spec.narrow_transform
         <$> take (size (CVStabilization.trajectoryData analysed))
               (iterate (CVStabilization.transformationData analysed)).*2).
Proof.
  apply (SaveStabilizedData_file analysed path 7 disk).
  vm_compute. lia.
Defined.

Lemma LoadStabilizedData_replaces_witness :
  let msg := Stabilization.mk [record0; record1] (Some 0%Z) in
  let r := CVStabilization.LoadStabilizedData analysed path disk_in_order in
  let e := Stabilizer.LoadStabilizedData Stabilizer.new path disk_in_order in
  r.1 = true ∧ e.1 = true ∧
  (∀ k : N,
     CVStabilization.trajectoryData r.2 !! k
     = Frame_trajectory <$> Stabilization.frame msg !! N.to_nat k ∧
     CVStabilization.transformationData r.2 !! k
     = Frame_transform <$> Stabilization.frame msg !! N.to_nat k) ∧
  Stabilizer.trajectoryData e.2 = CVStabilization.trajectoryData r.2 ∧
  Stabilizer.transformationData e.2 = CVStabilization.transformationData r.2 ∧
  (CVStabilization.last_T r.2 = CVStabilization.last_T analysed ∧
   CVStabilization.prev_grey r.2 = CVStabilization.prev_grey analysed ∧
   CVStabilization.prev_to_cur_transform r.2
   = CVStabilization.prev_to_cur_transform analysed ∧
   CVStabilization.smoothingWindow r.2
   = CVStabilization.smoothingWindow analysed) ∧
  CVStabilization.LoadStabilizedData r.2 path disk_in_order = r ∧
  Stabilizer.LoadStabilizedData e.2 path disk_in_order = e.
Proof.
  apply (LoadStabilizedData_replaces analysed Stabilizer.new path
           disk_in_order (Stabilization.mk [record0; record1] (Some 0%Z))).
  reflexivity.
Defined.

Lemma GetFrame_loaded_witness :
  Stabilizer.GetFrame (Stabilizer.new_from path disk_in_order) textured 1
  = (warp_with (Frame_transform record1) textured,
     Stabilizer.new_from path disk_in_order).
Proof.
  apply (GetFrame_loaded path disk_in_order
           (Stabilization.mk [record0; record1] (Some 0%Z)) textured 1 record1);
    [reflexivity|lia|reflexivity].
Defined.

Lemma GetFrame_negative_frame_number_witness :
  let effect := Stabilizer.new_from path disk_in_order in
  let k := Z.to_N (2 ^ 64 + -1) in
  Stabilizer.GetFrame effect textured (-1)
  = (warp_with (TransformParam_default k) textured,
     Stabilizer.mk
       (<[k := TransformParam_default k]> (Stabilizer.transformationData effect))
       (Stabilizer.trajectoryData effect)).
Proof.
  apply (GetFrame_negative_frame_number path disk_in_order
           (Stabilization.mk [record0; record1] (Some 0%Z)) textured (-1));
    [reflexivity|simpl; lia|lia].
Defined.

Lemma GetFrame_stored_after_render_witness :
  let self := Stabilizer.new_from path disk_in_order in
  let first := Stabilizer.GetFrame self textured 5 in
  Stabilizer.transformationData first.2 !! size_t_of_int64 1
  = Some (Frame_transform record1) ∧
  (Stabilizer.GetFrame self sparse 1).1
  = warp_with (Frame_transform record1) sparse ∧
  Stabilizer.GetFrame first.2 sparse 1
  = (warp_with (Frame_transform record1) sparse, first.2).
Proof.
  apply (GetFrame_stored_after_render
           (Stabilizer.new_from path disk_in_order) textured sparse 5 1
           (Frame_transform record1)).
  reflexivity.
Defined.

Lemma new_from_unreadable_witness :
  Stabilizer.new_from path disk_garbled = Stabilizer.new ∧
  let k := size_t_of_int64 3 in
  Stabilizer.GetFrame (Stabilizer.new_from path disk_garbled) textured 3
  = (warp_with (TransformParam_default k) textured,
     Stabilizer.mk {[ k := TransformParam_default k ]} ∅).
Proof.
  apply (new_from_unreadable path disk_garbled textured 3). reflexivity.
Defined.

Lemma ProcessClip_save_load_witness :
  ∃ self' fs',
    CVStabilization.ProcessClip (CVStabilization.new 1) panning = Some self' ∧
    CVStabilization.SaveStabilizedData self' path 7 disk = Some (true, fs') ∧
    CVStabilization.LoadStabilizedData analysed path fs'
    = (true,
       CVStabilization.mk
         (CVStabilization.last_T analysed) (CVStabilization.prev_grey analysed)
         (CVStabilization.prev_to_cur_transform analysed)
         (CVStabilization.smoothingWindow analysed)
         (Spec.narrow_trajectory <$> CVStabilization.trajectoryData self')
         (Spec.narrow_transform <$> CVStabilization.transformationData self')) ∧
    Stabilizer.new_from path fs'
    = Stabilizer.mk
        (Spec.narrow_transform <$> CVStabilization.transformationData self')
        (Spec.narrow_trajectory <$> CVStabilization.trajectoryData self').
Proof.
  eexists.
  destruct (ProcessClip_save_load (CVStabilization.new 1) _ analysed panning
              path 7 disk eq_refl eq_refl) as (fs' & Hsave & Hload).
  exists fs'. split; [reflexivity|]. split; [exact Hsave|exact Hload].
Defined.

Lemma save_then_load_by_rank_witness :
  ∃ fs',
    CVStabilization.SaveStabilizedData mismatched path 7 disk
    = Some (true, fs') ∧
    let r := CVStabilization.LoadStabilizedData analysed path fs' in
    r.1 = true ∧
    ∀ j : nat,
      CVStabilization.trajectoryData r.2 !! N.of_nat j
      = (Spec.narrow_trajectory ∘ snd)
        <$> iterate (CVStabilization.trajectoryData mismatched) !! j ∧
      CVStabilization.transformationData r.2 !! N.of_nat j
      = (Spec.narrow_transform ∘ snd)
        <$> take (size (CVStabilization.trajectoryData mismatched))
              (iterate (CVStabilization.transformationData mismatched)) !! j.
Proof.
  apply (save_then_load_by_rank mismatched analysed path 7 disk).
  - vm_compute. lia.
  - reflexivity.
Defined.

Lemma ProcessClip_maps_witness :
  ∃ self',
    CVStabilization.ProcessClip (CVStabilization.new 1) panning = Some self' ∧
    let p := TransformParam 1 0 0 in
    let c := CamTrajectory (0 + 1) (0 + 0) (0 + 0) in
    let s :=
      Spec.window_mean (CVStabilization.ComputeFramesTrajectory self')
        (CVStabilization.smoothingWindow (CVStabilization.new 1)) 0 in
    CVStabilization.trajectoryData self' !! N.of_nat 0 = Some s ∧
    CVStabilization.transformationData self' !! N.of_nat 0
    = Some (TransformParam
        (TransformParam.dx p + (CamTrajectory.x s - CamTrajectory.x c))
        (TransformParam.dy p + (CamTrajectory.y s - CamTrajectory.y c))
        (TransformParam.da p + (CamTrajectory.a s - CamTrajectory.a c)))%float.
Proof.
  eexists. split; [vm_compute; reflexivity|].
  apply (ProcessClip_maps (CVStabilization.new 1) _ panning 0
           (TransformParam 1 0 0) (CamTrajectory (0 + 1) (0 + 0) (0 + 0))).
  - unfold INT_MAX. simpl. lia.
  - vm_compute. reflexivity.
  - unfold INT_MAX. simpl. lia.
  - vm_compute. reflexivity.
  - vm_compute. reflexivity.
Defined.

End MoreEvaluation.
